(** * The hero canvas animation engine of [script.js]

    A shallow embedding of the self-invoking function that drives the
    hero background: the surface size shared by everybody, the three pools
    (particles, gold streaks, geometric shapes), the skyline and network
    helpers of the first scene, the scene clock and the frame loop.

    Conventions.
    - JavaScript numbers are kept abstract behind the class [JSNumber], with
      two instances: [binary64] (Rocq's primitive floats, the arithmetic the
      browser really runs) and [exact] (rationals, the arithmetic one reasons
      with on paper).  What depends only on the control flow is proved for
      every instance; what is a statement of real arithmetic is proved on
      [exact]; what can be decided by running the code is run on [binary64].
    - Counters that only ever hold small integers ([sceneTime], [sceneIndex],
      [animT]) and the DOM sizes ([offsetWidth], [innerWidth]: integers by
      their IDL type) are integers in [Z].
    - [Math.random] reads the next value of a stream; [Math.sin], [Math.cos]
      and [Math.hypot] are host functions taken as parameters.
    - The closure variables of the function are the fields of [Engine]; the
      page around it (elements, listeners, scheduled frames, generator,
      painted commands) is [Host].  Painting is recorded as a log of canvas
      commands; styles and gradients, which only select colours, are not
      recorded. *)

From Stdlib Require Import ZArith QArith Qround Qabs Floats Uint63 List Bool String Lia Lqa.
Import ListNotations.

Set Implicit Arguments.

(** ** Numbers *)

(** A numeric literal of the source text: [mantissa] times ten to the minus
    [scale], so that [0.35] is [Literal 35 2]. *)
Inductive literal : Set := Literal (mantissa : Z) (scale : nat).

Definition literal_of_number (n : Number.number) : option literal :=
  match n with
  | Number.Decimal (Decimal.Decimal i f) =>
      Some (Literal (Z.of_int (Decimal.app_int i f)) (Decimal.nb_digits f))
  | _ => None
  end.

Definition number_of_literal (l : literal) : option Number.number :=
  match l with
  | Literal m O => Some (Number.Decimal (Decimal.Decimal (Z.to_int m) Decimal.Nil))
  | _ => None
  end.

Declare Scope literal_scope.
Delimit Scope literal_scope with lit.
Number Notation literal literal_of_number number_of_literal : literal_scope.

Class JSNumber (num : Type) : Type := {
  of_Z : Z -> num;
  add : num -> num -> num;
  sub : num -> num -> num;
  mul : num -> num -> num;
  div : num -> num -> num;
  opp : num -> num;
  ltb : num -> num -> bool;
  leb : num -> num -> bool;
  (** [Math.floor], on the finite values *)
  floor : num -> Z
}.

(** The value of a literal: the quotient of two integers, which on
    [binary64] is the double nearest to the decimal, as the parser yields. *)
Definition lit {num} {N : JSNumber num} (l : literal) : num :=
  match l with
  | Literal m O => of_Z m
  | Literal m k => div (of_Z m) (of_Z (10 ^ Z.of_nat k))
  end.

Declare Scope js_scope.
Delimit Scope js_scope with js.
Notation "$ l" := (lit l%lit) (at level 1, l at level 0, format "$ l") : js_scope.
Notation "a + b" := (add a b) : js_scope.
Notation "a - b" := (sub a b) : js_scope.
Notation "a * b" := (mul a b) : js_scope.
Notation "a / b" := (div a b) : js_scope.
Notation "- a" := (opp a) : js_scope.
Notation "a <? b" := (ltb a b) : js_scope.
Notation "a >? b" := (ltb b a) : js_scope.
Notation "a <=? b" := (leb a b) : js_scope.
Notation "a >=? b" := (leb b a) : js_scope.

(** *** IEEE 754 double precision

    Integers go through the 63-bit machine integers, which is exact for the
    sizes and counters of a page. *)

Definition float_of_Z (z : Z) : float :=
  if (z <? 0)%Z then PrimFloat.opp (PrimFloat.of_uint63 (Uint63.of_Z (- z)))
  else PrimFloat.of_uint63 (Uint63.of_Z z).

Definition float_floor (f : float) : Z :=
  match Prim2SF f with
  | S754_finite s m e =>
      let v := if s then Z.neg m else Z.pos m in
      if (0 <=? e)%Z then (v * 2 ^ e)%Z else (v / 2 ^ (- e))%Z
  | _ => 0%Z
  end.

#[export] Instance binary64 : JSNumber float := {
  of_Z := float_of_Z;
  add := PrimFloat.add;
  sub := PrimFloat.sub;
  mul := PrimFloat.mul;
  div := PrimFloat.div;
  opp := PrimFloat.opp;
  ltb := PrimFloat.ltb;
  leb := PrimFloat.leb;
  floor := float_floor
}.

(** *** Exact rational arithmetic

    [Qdiv] by zero is zero where a double would be infinite or not a number;
    the engine divides by constants, by counts that are at least one, and by
    [0.35 W] only for an edge shorter than that. *)

#[export] Instance exact : JSNumber Q := {
  of_Z := inject_Z;
  add := Qplus;
  sub := Qminus;
  mul := Qmult;
  div := Qdiv;
  opp := Qopp;
  ltb := fun a b => negb (Qle_bool b a);
  leb := Qle_bool;
  floor := Qfloor
}.

(** The rational a finite double stands for. *)
Definition Q_of_float (f : float) : Q :=
  match Prim2SF f with
  | S754_finite s m e =>
      let v := if s then Z.neg m else Z.pos m in
      if (0 <=? e)%Z then inject_Z (v * 2 ^ e) else Qmake v (Z.to_pos (2 ^ (- e)))
  | _ => 0
  end.

(** ** State passing *)

Definition State (S A : Type) : Type := S -> A * S.

Definition ret {S A} (a : A) : State S A := fun s => (a, s).

Definition bind {S A B} (m : State S A) (k : A -> State S B) : State S B :=
  fun s => let (a, s') := m s in k a s'.

Notation "x <- m ;; k" := (bind m (fun x => k))
  (at level 61, m at next level, right associativity).
Notation "m ;;; k" := (bind m (fun _ => k))
  (at level 61, right associativity).

(** [Array.from({ length: n }, f)]: [f] is called [n] times, in order. *)
Fixpoint Array_from {S A} (n : nat) (f : State S A) : State S (list A) :=
  match n with
  | O => ret []
  | Datatypes.S n' => a <- f ;; l <- Array_from n' f ;; ret (a :: l)
  end.

(** [a.forEach(f)] where [f] mutates the element it is given: the array
    keeps its slots, each slot holds what [f] made of it. *)
Fixpoint forEach {S A} (f : A -> State S A) (a : list A) : State S (list A) :=
  match a with
  | [] => ret []
  | e :: a' => e' <- f e ;; l <- forEach f a' ;; ret (e' :: l)
  end.

(** [Math.random]: the stream of values the generator will hand out, and
    how many it has handed out so far. *)
Record Rng (num : Type) : Type := { stream : nat -> num; drawn : nat }.

Definition random {num} : State (Rng num) num :=
  fun g => (stream g (drawn g), {| stream := stream g; drawn := S (drawn g) |}).

(** ** What is painted *)

(** The calls on the 2D context that carry geometry or opacity.  A path made
    of one segment and stroked is [line]; a full circle filled is [disc]; a
    closed polygon stroked is [polygon]; a helper that is not detailed here
    is [painted], with its name and the time it was given. *)
Inductive Cmd (num : Type) : Type :=
| save
| restore
| globalAlpha (a : num)
| translate (x y : num)
| rotate (angle : num)
| clearRect (x y w h : num)
| fillRect (x y w h : num)
| strokeRect (x y w h : num)
| line (x1 y1 x2 y2 : num)
| disc (x y r : num)
| polygon (vertices : list (num * num))
| painted (what : string) (t : Z).

Arguments save {num}.
Arguments restore {num}.
Arguments painted {num} what t.

(** [Math.PI], [Math.sin], [Math.cos] and [Math.hypot], as the host has
    them. *)
Class JSMath (num : Type) : Type := {
  PI : num;
  sin : num -> num;
  cos : num -> num;
  hypot : num -> num -> num
}.

(** [a[i]]: [None] stands for [undefined]. *)
Definition index {A} (a : list A) (i : Z) : option A :=
  if (i <? 0)%Z then None else nth_error a (Z.to_nat i).

(** [for (let i = 0; i < n; i++)] with an integer bound: the values of [i]. *)
Definition upto (n : Z) : list Z := map Z.of_nat (seq 0 (Z.to_nat n)).

(** ** Particles *)

Module Particle.
Section WithNumbers.
Context {num : Type} {N : JSNumber num}.
Local Open Scope js_scope.

Record t : Type := {
  x : num; y : num; vx : num; vy : num;
  size : num; alpha : num; gold : bool;
  life : num; maxLife : num
}.

(** [reset()] overwrites every field of [this]; [W] and [H] are the
    closure variables as they are when the call is made. *)
Definition reset (W H : Z) : State (Rng num) t :=
  r1 <- random ;; r2 <- random ;; r3 <- random ;; r4 <- random ;;
  r5 <- random ;; r6 <- random ;; r7 <- random ;; r8 <- random ;;
  ret {| x := r1 * of_Z W;
         y := r2 * of_Z H;
         vx := (r3 - $0.5) * $0.4;
         vy := - r4 * $0.6 - $0.1;
         size := r5 * $2.5 + $0.3;
         alpha := r6 * $0.7 + $0.1;
         gold := r7 >? $0.6;
         life := $0;
         maxLife := $200 + r8 * $300 |}.

(** The three assignments that open [update()]. *)
Definition move (this : t) : t :=
  {| x := x this + vx this; y := y this + vy this;
     vx := vx this; vy := vy this; size := size this; alpha := alpha this;
     gold := gold this;
     life := life this + $1; maxLife := maxLife this |}.

Definition update (W H : Z) (this : t) : State (Rng num) t :=
  let this := move this in
  if (life this >? maxLife this) || (y this <? - $10) then reset W H
  else ret this.

(** [Math.min(a, 1)] *)
Definition min1 (a : num) : num := if $1 <? a then $1 else a.

Definition draw (this : t) : list (Cmd num) :=
  let fade := min1 (life this / $40) * min1 ((maxLife this - life this) / $40) in
  [ save; globalAlpha (alpha this * fade);
    disc (x this) (y this) (size this); restore ].

(** [k] calls of [update()] on the same particle, one per frame. *)
Fixpoint updates (k : nat) (W H : Z) (this : t) : State (Rng num) t :=
  match k with
  | O => ret this
  | S k' => this' <- updates k' W H this ;; update W H this'
  end.

End WithNumbers.
Arguments t num : clear implicits.
End Particle.

(** ** Gold streaks *)

Inductive colour : Set := GOLD | LGOLD.

Module GoldLine.
Section WithNumbers.
Context {num : Type} {N : JSNumber num}.
Local Open Scope js_scope.

Record t : Type := {
  x : num; y : num; targetX : num; targetY : num;
  progress : num; speed : num; alpha : num; width : num;
  color : colour;
  trail : list (num * num)
}.

Definition reset (W H : Z) : State (Rng num) t :=
  r1 <- random ;; r2 <- random ;; r3 <- random ;; r4 <- random ;;
  r5 <- random ;; r6 <- random ;;
  let x := r1 * of_Z W in
  ret {| x := x;
         y := of_Z H + $50;
         targetX := x + (r2 - $0.5) * $300;
         targetY := - $50;
         progress := $0;
         speed := $0.002 + r3 * $0.003;
         alpha := r4 * $0.35 + $0.08;
         width := r5 * $1.5 + $0.3;
         color := if r6 >? $0.5 then GOLD else LGOLD;
         trail := [] |}.

Definition set_progress (this : t) (p : num) : t :=
  {| x := x this; y := y this; targetX := targetX this; targetY := targetY this;
     progress := p; speed := speed this; alpha := alpha this; width := width this;
     color := color this; trail := trail this |}.

Definition set_trail (this : t) (l : list (num * num)) : t :=
  {| x := x this; y := y this; targetX := targetX this; targetY := targetY this;
     progress := progress this; speed := speed this; alpha := alpha this;
     width := width this; color := color this; trail := l |}.

(** [this.progress += this.speed] and the interpolated point pushed on the
    trail. *)
Definition advance (this : t) : t :=
  let this := set_progress this (progress this + speed this) in
  let cx := x this + (targetX this - x this) * progress this in
  let cy := y this + (targetY this - y this) * progress this in
  set_trail this (trail this ++ [(cx, cy)]).

(** [if (this.trail.length > 60) this.trail.shift()] *)
Definition cap (this : t) : t :=
  if (60 <? List.length (trail this))%nat then set_trail this (tl (trail this))
  else this.

Definition update (W H : Z) (this : t) : State (Rng num) t :=
  let this := cap (advance this) in
  if progress this >=? $1 then reset W H else ret this.

(** [new GoldLine()] followed by [g.progress = Math.random()], as the pool
    is filled. *)
Definition create (W H : Z) : State (Rng num) t :=
  g <- reset W H ;; r <- random ;; ret (set_progress g r).

(** One call of [update()] per frame, the surface having the size [dims]
    gives for that frame. *)
Fixpoint updates (dims : list (Z * Z)) (this : t) : State (Rng num) t :=
  match dims with
  | [] => ret this
  | (W, H) :: dims' => this' <- update W H this ;; updates dims' this'
  end.

Fixpoint segments (a : num) (len : nat) (i : nat) (l : list (num * num))
  : list (Cmd num) :=
  match l with
  | p :: (q :: _) as l' =>
      let t := of_Z (Z.of_nat i) / of_Z (Z.of_nat len) in
      globalAlpha (a * t * $0.8) :: line (fst p) (snd p) (fst q) (snd q)
        :: segments a len (S i) l'
  | _ => []
  end.

Definition draw (this : t) : list (Cmd num) :=
  if (List.length (trail this) <? 2)%nat then []
  else
    let head := last (trail this) ($0, $0) in
    [save] ++ segments (alpha this) (List.length (trail this)) 1 (trail this)
    ++ [globalAlpha (alpha this); disc (fst head) (snd head) $4; restore].

End WithNumbers.
Arguments t num : clear implicits.
End GoldLine.

(** ** Geometric shapes *)

Module GeomShape.
Section WithNumbers.
Context {num : Type} {N : JSNumber num} {M : JSMath num}.
Local Open Scope js_scope.

Record t : Type := {
  x : num; y : num; size : num; rotation : num; rotSpeed : num;
  alpha : num; sides : option Z; vx : num; vy : num; gold : bool
}.

Definition reset (W H : Z) : State (Rng num) t :=
  r1 <- random ;; r2 <- random ;; r3 <- random ;; r4 <- random ;;
  r5 <- random ;; r6 <- random ;; r7 <- random ;; r8 <- random ;;
  r9 <- random ;; r10 <- random ;;
  ret {| x := r1 * of_Z W; y := r2 * of_Z H;
         size := $40 + r3 * $120;
         rotation := r4 * PI * $2;
         rotSpeed := (r5 - $0.5) * $0.003;
         alpha := $0.015 + r6 * $0.05;
         sides := index [3; 4; 6]%Z (floor (r7 * $3));
         vx := (r8 - $0.5) * $0.15; vy := (r9 - $0.5) * $0.15;
         gold := r10 >? $0.4 |}.

Definition move (this : t) : t :=
  {| x := x this + vx this; y := y this + vy this; size := size this;
     rotation := rotation this + rotSpeed this; rotSpeed := rotSpeed this;
     alpha := alpha this; sides := sides this; vx := vx this; vy := vy this;
     gold := gold this |}.

Definition update (W H : Z) (this : t) : State (Rng num) t :=
  let this := move this in
  if (x this <? - $200) || (x this >? of_Z W + $200)
     || (y this <? - $200) || (y this >? of_Z H + $200)
  then reset W H else ret this.

Definition vertex (this : t) (n i : Z) : num * num :=
  let angle := of_Z i / of_Z n * PI * $2 - PI / $2 in
  (cos angle * size this, sin angle * size this).

Definition draw (this : t) : list (Cmd num) :=
  [ save; translate (x this) (y this); rotate (rotation this);
    globalAlpha (alpha this);
    polygon (match sides this with
             | Some n => map (vertex this n) (upto n)
             | None => []
             end);
    restore ].

End WithNumbers.
Arguments t num : clear implicits.
End GeomShape.

(** ** Helpers of the first scene *)

Bind Scope literal_scope with literal.

Module Building.
Record t : Set := { x : literal; w : literal; h : literal; floors : Z }.
End Building.

Definition building (x w h : literal) (floors : Z) : Building.t :=
  {| Building.x := x; Building.w := w; Building.h := h; Building.floors := floors |}.

Definition buildings : list Building.t :=
  [ building 0.05 0.06 0.45 12; building 0.10 0.04 0.35 9;
    building 0.13 0.08 0.55 15; building 0.20 0.05 0.40 11;
    building 0.24 0.09 0.65 18; building 0.32 0.04 0.50 13;
    building 0.35 0.07 0.72 20; building 0.41 0.05 0.48 12;
    building 0.45 0.10 0.80 22; building 0.54 0.04 0.60 16;
    building 0.57 0.08 0.68 18; building 0.64 0.05 0.52 14;
    building 0.68 0.07 0.70 19; building 0.74 0.04 0.45 12;
    building 0.77 0.06 0.55 15; building 0.82 0.09 0.62 17;
    building 0.90 0.05 0.50 13; building 0.94 0.07 0.40 11 ].

(** [a.forEach((n, i) => ...)]: the elements with their indices. *)
Definition indexed {A} (a : list A) : list (Z * A) :=
  combine (upto (Z.of_nat (List.length a))) a.

Section Helpers.
Context {num : Type} {N : JSNumber num} {M : JSMath num}.
Local Open Scope js_scope.

(** [const lit = Math.sin(row * 3.7 + col * 2.1 + b.x * 10) > 0.1] *)
Definition windowLit (b : Building.t) (row col : Z) : bool :=
  sin (of_Z row * $3.7 + of_Z col * $2.1 + lit (Building.x b) * $10) >? $0.1.

(** The body of the two nested loops over the windows of a building, whose
    rectangle [bx, by, bw, bh] is cut in [wCols] by [wRows] cells. *)
Definition drawWindow (bx by' bw bh : num) (wCols wRows : Z) (ww wh : num)
           (b : Building.t) (row col : Z) : list (Cmd num) :=
  if windowLit b row col then
    [fillRect (bx + of_Z col * (bw / of_Z wCols) + (bw / of_Z wCols - ww) * $0.5)
              (by' + of_Z row * (bh / of_Z wRows) + (bh / of_Z wRows - wh) * $0.5 + $4)
              ww wh]
  else [].

Definition drawBuilding (W H : Z) (b : Building.t) : list (Cmd num) :=
  let bx := lit (Building.x b) * of_Z W in
  let bw := lit (Building.w b) * of_Z W in
  let bh := lit (Building.h b) * of_Z H * $0.6 in
  let by' := of_Z H - bh in
  let wCols := Z.max 1 (floor (bw / $12)) in
  let wRows := Building.floors b in
  let ww := bw / of_Z wCols * $0.5 in
  let wh := bh / of_Z wRows * $0.35 in
  [fillRect bx by' bw bh]
  ++ flat_map (fun row =>
       flat_map (fun col => drawWindow bx by' bw bh wCols wRows ww wh b row col)
                (upto wCols))
       (upto wRows)
  ++ [strokeRect bx by' bw bh].

Definition drawSkyline (W H : Z) (alpha : num) (t : Z) : list (Cmd num) :=
  [save; globalAlpha alpha] ++ flat_map (drawBuilding W H) buildings ++ [restore].

Definition node (W H : Z) (t : Z) (i : Z) : num * num :=
  (($0.15 + $0.7 * of_Z (Z.rem i 4) / $3
      + sin (of_Z t * $0.008 + of_Z i) * $0.03) * of_Z W,
   ($0.2 + $0.6 * of_Z (floor (of_Z i / $4)) / $2
      + cos (of_Z t * $0.006 + of_Z i) * $0.03) * of_Z H).

(** [ctx.globalAlpha] of an edge of length [d]. *)
Definition edgeAlpha (W : Z) (alpha d : num) : num :=
  alpha * $0.15 * ($1 - d / (of_Z W * $0.35)).

(** The body of the inner callback once [j <= i] has been excluded. *)
Definition edge (W : Z) (alpha : num) (n m : num * num) : list (Cmd num) :=
  let d := hypot (fst n - fst m) (snd n - snd m) in
  if d <? of_Z W * $0.35 then
    [globalAlpha (edgeAlpha W alpha d); line (fst n) (snd n) (fst m) (snd m)]
  else [].

Definition edges (W : Z) (alpha : num) (nodes : list (num * num)) : list (Cmd num) :=
  flat_map (fun '(i, n) =>
    flat_map (fun '(j, m) => if (j <=? i)%Z then [] else edge W alpha n m)
             (indexed nodes))
    (indexed nodes).

Definition glow (alpha : num) (t : Z) (ni : Z * (num * num)) : list (Cmd num) :=
  let '(i, n) := ni in
  let pulse := $0.7 + $0.3 * sin (of_Z t * $0.05 + of_Z i) in
  [globalAlpha (alpha * $0.55); disc (fst n) (snd n) ($12 * pulse)].

Definition drawNetwork (W H : Z) (alpha : num) (t : Z) : list (Cmd num) :=
  let count := 12%Z in
  let nodes := map (node W H t) (upto count) in
  [save] ++ edges W alpha nodes ++ flat_map (glow alpha t) (indexed nodes) ++ [restore].

(** ** Scenes *)

Definition sceneVision (W H : Z) (t : Z) : list (Cmd num) :=
  [fillRect $0 $0 (of_Z W) (of_Z H)]
  ++ drawSkyline W H $0.9 t
  ++ [fillRect $0 (of_Z H * $0.45) (of_Z W) (of_Z H * $0.55);
      painted "walking figures" t]
  ++ drawNetwork W H $0.45 t
  ++ [fillRect $0 $0 (of_Z W) (of_Z H)].

Definition sceneLeadership (W H : Z) (t : Z) : list (Cmd num) :=
  [painted "sceneLeadership" t].
Definition sceneCollaboration (W H : Z) (t : Z) : list (Cmd num) :=
  [painted "sceneCollaboration" t].
Definition sceneExcellence (W H : Z) (t : Z) : list (Cmd num) :=
  [painted "sceneExcellence" t].
Definition sceneTransformation (W H : Z) (t : Z) : list (Cmd num) :=
  [painted "sceneTransformation" t].

Definition scenes : list (Z -> Z -> Z -> list (Cmd num)) :=
  [sceneVision; sceneLeadership; sceneCollaboration; sceneExcellence;
   sceneTransformation].

Definition SCENE_DURATION : Z := 420.

End Helpers.

(** ** The engine and the page *)

(** How a call ends: normally with a value, or by throwing a [TypeError]
    (calling [undefined]). *)
Inductive completion (A : Type) : Type :=
| Normal (a : A)
| TypeError.
Arguments TypeError {A}.

Section Engine.
Context {num : Type} {N : JSNumber num} {M : JSMath num}.
Local Open Scope js_scope.

(** The variables the function closes over. *)
Record Engine : Type := {
  W : Z; H : Z;
  particles : list (Particle.t num);
  goldLines : list (GoldLine.t num);
  shapes : list (GeomShape.t num);
  sceneIndex : Z; sceneTime : Z; animT : Z
}.

(** The page: the [#hero-canvas] element, if there is one, with its
    [width] and [height]; the box of [#accueil], if there is one
    ([offsetWidth], [offsetHeight]); the window's inner size; the [resize]
    listeners this script added to the window; the animation frames
    requested and not run yet; the random generator; what was painted. *)
Record Host : Type := {
  hero_canvas : option (Z * Z);
  accueil : option (Z * Z);
  innerWidth : Z; innerHeight : Z;
  resizeListeners : nat;
  animationFrames : nat;
  rng : Rng num;
  canvas_log : list (Cmd num)
}.

Definition set_size (e : Engine) (w h : Z) : Engine :=
  {| W := w; H := h; particles := particles e; goldLines := goldLines e;
     shapes := shapes e; sceneIndex := sceneIndex e; sceneTime := sceneTime e;
     animT := animT e |}.

Definition set_pools (e : Engine) ps gs ss : Engine :=
  {| W := W e; H := H e; particles := ps; goldLines := gs; shapes := ss;
     sceneIndex := sceneIndex e; sceneTime := sceneTime e; animT := animT e |}.

Definition set_clock (e : Engine) (i st t : Z) : Engine :=
  {| W := W e; H := H e; particles := particles e; goldLines := goldLines e;
     shapes := shapes e; sceneIndex := i; sceneTime := st; animT := t |}.

Definition set_canvas (h : Host) (c : option (Z * Z)) : Host :=
  {| hero_canvas := c; accueil := accueil h; innerWidth := innerWidth h;
     innerHeight := innerHeight h; resizeListeners := resizeListeners h;
     animationFrames := animationFrames h; rng := rng h;
     canvas_log := canvas_log h |}.

(** [window.addEventListener('resize', resize)] *)
Definition addResizeListener : State Host unit := fun h =>
  (tt, {| hero_canvas := hero_canvas h; accueil := accueil h;
          innerWidth := innerWidth h; innerHeight := innerHeight h;
          resizeListeners := S (resizeListeners h);
          animationFrames := animationFrames h; rng := rng h;
          canvas_log := canvas_log h |}).

(** [requestAnimationFrame(loop)] *)
Definition requestAnimationFrame : State Host unit := fun h =>
  (tt, {| hero_canvas := hero_canvas h; accueil := accueil h;
          innerWidth := innerWidth h; innerHeight := innerHeight h;
          resizeListeners := resizeListeners h;
          animationFrames := S (animationFrames h); rng := rng h;
          canvas_log := canvas_log h |}).

(** A call that draws random numbers, run on the page's generator. *)
Definition withRandom {A} (m : State (Rng num) A) : State Host A := fun h =>
  let (a, g) := m (rng h) in
  (a, {| hero_canvas := hero_canvas h; accueil := accueil h;
         innerWidth := innerWidth h; innerHeight := innerHeight h;
         resizeListeners := resizeListeners h;
         animationFrames := animationFrames h; rng := g;
         canvas_log := canvas_log h |}).

(** Calls on [ctx]. *)
Definition paint (c : list (Cmd num)) : State Host unit := fun h =>
  (tt, {| hero_canvas := hero_canvas h; accueil := accueil h;
          innerWidth := innerWidth h; innerHeight := innerHeight h;
          resizeListeners := resizeListeners h;
          animationFrames := animationFrames h; rng := rng h;
          canvas_log := canvas_log h ++ c |}).

(** [resize()]: the two assignments, each to the closure variable and to
    the canvas attribute. *)
Definition resize (e : Engine) (h : Host) : Engine * Host :=
  let hero := accueil h in
  let w := match hero with Some box => fst box | None => innerWidth h end in
  let h' := match hero with Some box => snd box | None => innerHeight h end in
  (set_size e w h', set_canvas h (Some (w, h'))).

(** [animT++; sceneTime++;] and the change of scene. *)
Definition tick (e : Engine) : Engine :=
  let animT := (animT e + 1)%Z in
  let sceneTime := (sceneTime e + 1)%Z in
  if (sceneTime >=? SCENE_DURATION)%Z then
    set_clock e (Z.rem (sceneIndex e + 1) (Z.of_nat (List.length scenes))) 0 animT
  else set_clock e (sceneIndex e) sceneTime animT.

(** [transProgress] and [sceneAlpha], from the value [sceneTime] has once
    [tick] is done. *)
Definition sceneAlpha (sceneTime : Z) : num :=
  let transProgress := of_Z sceneTime / of_Z SCENE_DURATION in
  if transProgress <? $0.1 then transProgress / $0.1
  else if transProgress >? $0.9 then ($1 - transProgress) / $0.1
  else $1.

Definition vignette (e : Engine) : list (Cmd num) :=
  [fillRect $0 $0 (of_Z (W e)) (of_Z (H e))].

(** One call of [loop()]. *)
Definition loop (e : Engine) (h : Host) : completion (Engine * Host) :=
  let e := tick e in
  match index scenes (sceneIndex e) with
  | None => TypeError
  | Some scene =>
      let run : State Host Engine :=
        paint ([clearRect $0 $0 (of_Z (W e)) (of_Z (H e));
                save; globalAlpha (sceneAlpha (sceneTime e))]
               ++ scene (W e) (H e) (animT e) ++ [restore]) ;;;
        ps <- forEach (fun p => p' <- withRandom (Particle.update (W e) (H e) p) ;;
                                paint (Particle.draw p') ;;; ret p')
                      (particles e) ;;
        gs <- forEach (fun g => g' <- withRandom (GoldLine.update (W e) (H e) g) ;;
                                paint (GoldLine.draw g') ;;; ret g')
                      (goldLines e) ;;
        ss <- forEach (fun s => s' <- withRandom (GeomShape.update (W e) (H e) s) ;;
                                paint (GeomShape.draw s') ;;; ret s')
                      (shapes e) ;;
        paint (vignette e) ;;;
        requestAnimationFrame ;;;
        ret (set_pools e ps gs ss)
      in Normal (run h)
  end.

(** What the function does between its guard and its call of [loop()]:
    the first [resize()], the listener, the three pools, the clock. *)
Definition setup (h : Host) : Engine * Host :=
  let e0 := {| W := 0; H := 0; particles := []; goldLines := [];
               shapes := []; sceneIndex := 0; sceneTime := 0; animT := 0 |} in
  let (e, h) := resize e0 h in
  (addResizeListener ;;;
   ps <- Array_from 150 (withRandom (Particle.reset (W e) (H e))) ;;
   gs <- Array_from 10 (withRandom (GoldLine.create (W e) (H e))) ;;
   ss <- Array_from 16 (withRandom (GeomShape.reset (W e) (H e))) ;;
   ret (set_pools e ps gs ss)) h.

(** The function itself, called once as the script is loaded.  It yields
    its closure when it gets past the guard. *)
Definition heroCanvas (h : Host) : completion (option Engine * Host) :=
  match hero_canvas h with
  | None => Normal (None, h)
  | Some _ =>
      let (e, h) := setup h in
      match loop e h with
      | Normal (e, h) => Normal (Some e, h)
      | TypeError => TypeError
      end
  end.

(** The window takes a new layout and tells its [resize] listeners. *)
Definition windowResized (box : option (Z * Z)) (iw ih : Z)
           (s : option Engine * Host) : option Engine * Host :=
  let (eng, h) := s in
  let h := {| hero_canvas := hero_canvas h; accueil := box; innerWidth := iw;
              innerHeight := ih; resizeListeners := resizeListeners h;
              animationFrames := animationFrames h; rng := rng h;
              canvas_log := canvas_log h |} in
  match eng, resizeListeners h with
  | Some e, S _ => let (e, h) := resize e h in (Some e, h)
  | _, _ => (eng, h)
  end.

(** [n] calls of [loop()] in a row. *)
Fixpoint frames (n : nat) (e : Engine) (h : Host) : completion (Engine * Host) :=
  match n with
  | O => Normal (e, h)
  | S n' =>
      match frames n' e h with
      | Normal (e', h') => loop e' h'
      | TypeError => TypeError
      end
  end.

End Engine.
Arguments Engine num : clear implicits.
Arguments Host num : clear implicits.


(** * The rest of the script: input checks, token, rate limiter

    A JavaScript string is a sequence of UTF-16 code units; a code unit is a
    number in [N].  The texts of the source are written as Rocq strings and
    read one code unit per character. *)

From Stdlib Require Import Ascii NArith.

Definition jsstring : Set := list N.

Definition js (s : string) : jsstring := map N_of_ascii (list_ascii_of_string s).

(** The double quote, [U+0022]. *)
Definition quote : N := 34.

(** ** [sanitizeInput] *)

(** The object [map]: its keys with their values. *)
Definition entities : list (N * jsstring) :=
  [ (N_of_ascii "&", js "&amp;");
    (N_of_ascii "<", js "&lt;");
    (N_of_ascii ">", js "&gt;");
    (quote, js "&quot;");
    (N_of_ascii "'", js "&#x27;");
    (N_of_ascii "/", js "&#x2F;") ].

(** [map[char]], and the text [replace] puts in when the callback returns
    [undefined]. *)
Definition lookup (char : N) (map : list (N * jsstring)) : jsstring :=
  match find (fun kv => N.eqb (fst kv) char) map with
  | Some kv => snd kv
  | None => js "undefined"
  end.

(** The class of the expression: ampersand, the two angle brackets, the
    double quote, the apostrophe and the slash. *)
Definition special (c : N) : bool :=
  existsb (N.eqb c)
    [N_of_ascii "&"; N_of_ascii "<"; N_of_ascii ">"; quote; N_of_ascii "'";
     N_of_ascii "/"].

(** [input.replace(/[class]/g, f)]: every code unit of the class is
    replaced by what [f] gives for it. *)
Definition replace_each (class : N -> bool) (f : N -> jsstring) (input : jsstring)
  : jsstring :=
  flat_map (fun c => if class c then f c else [c]) input.

(** What one code unit of the input becomes. *)
Definition escaped (c : N) : jsstring :=
  if special c then lookup c entities else [c].

(** [None] is an input that is not a string. *)
Definition sanitizeInput (input : option jsstring) : jsstring :=
  match input with
  | None => []
  | Some input => replace_each special (fun char => lookup char entities) input
  end.

(** ** [generateCSRFToken] *)

Definition hexdigit (d : N) : N :=
  nth (N.to_nat d) (js "0123456789abcdef") 0%N.

(** [byte.toString(16)] for an element of a [Uint8Array]: one digit below
    16, two from there to 255. *)
Definition toString16 (byte : N) : jsstring :=
  if (byte <? 16)%N then [hexdigit byte]
  else [hexdigit (byte / 16); hexdigit (byte mod 16)].

Definition padStart (n : nat) (c : N) (s : jsstring) : jsstring :=
  repeat c (n - List.length s) ++ s.

(** [array] is the [Uint8Array] once [crypto.getRandomValues] has filled
    it. *)
Definition generateCSRFToken (array : list N) : jsstring :=
  List.concat (map (fun byte => padStart 2 (N_of_ascii "0") (toString16 byte)) array).

(** ** Regular expressions *)

(** The expressions the script needs: classes, sequences and repetitions,
    with the empty set, the empty word and the choice that derivatives
    bring in. *)
Inductive regex : Type :=
| Empty
| Eps
| Class (p : N -> bool)
| Seq (r1 r2 : regex)
| Alt (r1 r2 : regex)
| Star (r : regex).

(** [r+] *)
Definition Plus (r : regex) : regex := Seq r (Star r).

Fixpoint nullable (r : regex) : bool :=
  match r with
  | Empty => false
  | Eps => true
  | Class _ => false
  | Seq r1 r2 => nullable r1 && nullable r2
  | Alt r1 r2 => nullable r1 || nullable r2
  | Star _ => true
  end.

(** What is left of [r] to match after the code unit [c]. *)
Fixpoint deriv (c : N) (r : regex) : regex :=
  match r with
  | Empty => Empty
  | Eps => Empty
  | Class p => if p c then Eps else Empty
  | Seq r1 r2 =>
      if nullable r1 then Alt (Seq (deriv c r1) r2) (deriv c r2)
      else Seq (deriv c r1) r2
  | Alt r1 r2 => Alt (deriv c r1) (deriv c r2)
  | Star r1 => Seq (deriv c r1) (Star r1)
  end.

(** [/^r$/.test(s)]: the whole of [s] matches [r]. *)
Fixpoint test (r : regex) (s : jsstring) : bool :=
  match s with
  | [] => nullable r
  | c :: s' => test (deriv c r) s'
  end.

(** The words of an expression. *)
Inductive matches : regex -> jsstring -> Prop :=
| m_eps : matches Eps []
| m_class p c : p c = true -> matches (Class p) [c]
| m_seq r1 r2 s1 s2 : matches r1 s1 -> matches r2 s2 -> matches (Seq r1 r2) (s1 ++ s2)
| m_alt_l r1 r2 s : matches r1 s -> matches (Alt r1 r2) s
| m_alt_r r1 r2 s : matches r2 s -> matches (Alt r1 r2) s
| m_star_nil r : matches (Star r) []
| m_star_app r s1 s2 : matches r s1 -> matches (Star r) s2 -> matches (Star r) (s1 ++ s2).

(** [\d] *)
Definition is_digit (c : N) : bool := (48 <=? c)%N && (c <=? 57)%N.

(** [\s], which is also what [trim] removes: tab, line feed, vertical tab,
    form feed, carriage return, space, no-break space, and the spaces and
    separators above [U+00FF]. *)
Definition is_space (c : N) : bool :=
  ((9 <=? c)%N && (c <=? 13)%N)
  || (c =? 32)%N || (c =? 160)%N || (c =? 5760)%N
  || ((8192 <=? c)%N && (c <=? 8202)%N)
  || (c =? 8232)%N || (c =? 8233)%N || (c =? 8239)%N || (c =? 8287)%N
  || (c =? 12288)%N || (c =? 65279)%N.

Definition between (lo hi : ascii) (c : N) : bool :=
  (N_of_ascii lo <=? c)%N && (c <=? N_of_ascii hi)%N.

Definition is_char (a : ascii) (c : N) : bool := (c =? N_of_ascii a)%N.

(** One of [0123456789abcdef]. *)
Definition is_hex (c : N) : bool := is_digit c || between "a" "f" c.

(** [[^\s@]] *)
Definition not_space_at (c : N) : bool := negb (is_space c || is_char "@" c).

(** [/^[^\s@]+@[^\s@]+\.[^\s@]+$/] *)
Definition emailRegex : regex :=
  Seq (Plus (Class not_space_at))
      (Seq (Class (is_char "@"))
           (Seq (Plus (Class not_space_at))
                (Seq (Class (is_char ".")) (Plus (Class not_space_at))))).

Definition validateEmail (email : jsstring) : bool := test emailRegex email.

(** [[\d\s\+\-\(\)]] *)
Definition phone_unit (c : N) : bool :=
  is_digit c || is_space c || is_char "+" c || is_char "-" c
  || is_char "(" c || is_char ")" c.

(** [/^[\d\s\+\-\(\)]+$/] *)
Definition phoneRegex : regex := Plus (Class phone_unit).

(** [phone] is a string; the empty one is the only falsy one. *)
Definition validatePhone (phone : jsstring) : bool :=
  match phone with
  | [] => true
  | _ => test phoneRegex phone
  end.

(** The class of [nameRegex] as the file has it: [A-Z], [a-z], the radical
    sign [U+221A], the range from [U+00C4] to [U+221A], [U+00F8], [\s], the
    hyphen and the apostrophe. *)
Definition name_unit (c : N) : bool :=
  between "A" "Z" c || between "a" "z" c
  || (c =? 8730)%N || ((196 <=? c)%N && (c <=? 8730)%N) || (c =? 248)%N
  || is_space c || is_char "-" c || is_char "'" c.

Definition nameRegex : regex := Plus (Class name_unit).

Definition validateName (name : jsstring) : bool := test nameRegex name.

(** ** [String.prototype.trim] *)

Fixpoint trimStart (s : jsstring) : jsstring :=
  match s with
  | [] => []
  | c :: s' => if is_space c then trimStart s' else s
  end.

Definition trimEnd (s : jsstring) : jsstring := rev (trimStart (rev s)).

Definition trim (s : jsstring) : jsstring := trimEnd (trimStart s).

(** ** [validateFormData] *)

(** The texts put in [errors], by field: for the name, at least 2
    characters, at most 100, invalid characters; for the email, required,
    invalid format, at most 100 characters; for the phone, invalid format, at
    most 20 characters; for the service, to be selected; for the message, at
    least 10 characters, at most 1000. *)
Inductive message : Set :=
| name_too_short | name_too_long | name_invalid
| email_required | email_invalid | email_too_long
| phone_invalid | phone_too_long
| service_required
| message_too_short | message_too_long.

Module Errors.
(** The key of a field, when it was set. *)
Definition key (k : string) (m : option message) : list string :=
  match m with
  | Some _ => [k]
  | None => []
  end.
Record t : Set := {
  name : option message; email : option message; phone : option message;
  service : option message; message : option message
}.
(** [{}] *)
Definition none : t :=
  {| name := None; email := None; phone := None; service := None; message := None |}.
(** [Object.keys(errors)], in the order the fields can be set. *)
Definition keys (e : t) : list string :=
  key "name" (name e) ++ key "email" (email e) ++ key "phone" (phone e)
  ++ key "service" (service e) ++ key "message" (message e).
End Errors.

(** A [FormData] of text fields: [formData.get(key)], [None] for [null]. *)
Definition FormData : Set := string -> option jsstring.

(** [!s] for a string or [undefined]. *)
Definition falsy (s : option jsstring) : bool :=
  match s with
  | None | Some [] => true
  | Some _ => false
  end.

(** [s.length], asked only of a string. *)
Definition len (s : option jsstring) : nat :=
  match s with
  | Some s => List.length s
  | None => 0
  end.

Definition text (s : option jsstring) : jsstring :=
  match s with
  | Some s => s
  | None => []
  end.

Record Validation : Set := { isValid : bool; errors : Errors.t }.

Definition validateFormData (formData : FormData) : Validation :=
  let v := {| isValid := true; errors := Errors.none |} in
  let name := option_map trim (formData "name"%string) in
  let fail_name (v : Validation) m :=
    {| isValid := false;
       errors := {| Errors.name := Some m; Errors.email := Errors.email (errors v);
                    Errors.phone := Errors.phone (errors v);
                    Errors.service := Errors.service (errors v);
                    Errors.message := Errors.message (errors v) |} |} in
  let v :=
    if falsy name || (len name <? 2)%nat then fail_name v name_too_short
    else if (100 <? len name)%nat then fail_name v name_too_long
    else if negb (validateName (text name)) then fail_name v name_invalid
    else v in
  let email := option_map trim (formData "email"%string) in
  let fail_email (v : Validation) m :=
    {| isValid := false;
       errors := {| Errors.name := Errors.name (errors v); Errors.email := Some m;
                    Errors.phone := Errors.phone (errors v);
                    Errors.service := Errors.service (errors v);
                    Errors.message := Errors.message (errors v) |} |} in
  let v :=
    if falsy email then fail_email v email_required
    else if negb (validateEmail (text email)) then fail_email v email_invalid
    else if (100 <? len email)%nat then fail_email v email_too_long
    else v in
  let phone := option_map trim (formData "phone"%string) in
  let fail_phone (v : Validation) m :=
    {| isValid := false;
       errors := {| Errors.name := Errors.name (errors v);
                    Errors.email := Errors.email (errors v); Errors.phone := Some m;
                    Errors.service := Errors.service (errors v);
                    Errors.message := Errors.message (errors v) |} |} in
  let v :=
    if negb (falsy phone) && negb (validatePhone (text phone))
    then fail_phone v phone_invalid
    else if negb (falsy phone) && (20 <? len phone)%nat
    then fail_phone v phone_too_long
    else v in
  let service := formData "service"%string in
  let fail_service (v : Validation) m :=
    {| isValid := false;
       errors := {| Errors.name := Errors.name (errors v);
                    Errors.email := Errors.email (errors v);
                    Errors.phone := Errors.phone (errors v);
                    Errors.service := Some m;
                    Errors.message := Errors.message (errors v) |} |} in
  let v := if falsy service then fail_service v service_required else v in
  let message := option_map trim (formData "message"%string) in
  let fail_message (v : Validation) m :=
    {| isValid := false;
       errors := {| Errors.name := Errors.name (errors v);
                    Errors.email := Errors.email (errors v);
                    Errors.phone := Errors.phone (errors v);
                    Errors.service := Errors.service (errors v);
                    Errors.message := Some m |} |} in
  let v :=
    if falsy message || (len message <? 10)%nat then fail_message v message_too_short
    else if (1000 <? len message)%nat then fail_message v message_too_long
    else v in
  v.

(** What the function keeps true of its result from one field to the
    next. *)
Definition agrees (v : Validation) : Prop :=
  isValid v = true <-> errors v = Errors.none.

(** A field of the form as the checks read it: trimmed, and empty when the
    form does not have it. *)
Definition trimmed (formData : FormData) (key : string) : jsstring :=
  text (option_map trim (formData key)).

(** What a form has to be for every check to pass. *)
Definition well_filled (formData : FormData) : Prop :=
  ((2 <= List.length (trimmed formData "name") <= 100)%nat
   /\ validateName (trimmed formData "name") = true)
  /\ (validateEmail (trimmed formData "email") = true
      /\ (List.length (trimmed formData "email") <= 100)%nat)
  /\ (trimmed formData "phone" = []
      \/ (validatePhone (trimmed formData "phone") = true
          /\ (List.length (trimmed formData "phone") <= 20)%nat))
  /\ text (formData "service"%string) <> []
  /\ (10 <= List.length (trimmed formData "message") <= 1000)%nat.

(** The result is valid only if [Q] holds, or only if it does not. *)
Definition valid_only_if (Q : Prop) (v : Validation) : Prop := isValid v = true -> Q.
Definition valid_if (Q : Prop) (v : Validation) : Prop := Q -> isValid v = true.

(** ** The rate limiter *)

(** [Date.now()] is given by the caller, in milliseconds. *)
Module rateLimiter.

Record t : Set := { attempts : Z; lastReset : Z }.

Definition maxAttempts : Z := 5.
Definition resetTime : Z := 60000.

(** The object as the script creates it at the time [now]. *)
Definition init (now : Z) : t := {| attempts := 0; lastReset := now |}.

Definition canSubmit (now : Z) : State t bool := fun this =>
  let this :=
    if (now - lastReset this >? resetTime)%Z
    then {| attempts := 0; lastReset := now |}
    else this in
  ((attempts this <? maxAttempts)%Z, this).

Definition recordAttempt : State t unit := fun this =>
  (tt, {| attempts := attempts this + 1; lastReset := lastReset this |}).

(** [Math.ceil(x / 1000)] for an integer [x]. *)
Definition ceil_thousandth (x : Z) : Z := (- ((- x) / 1000))%Z.

Definition getRemainingTime (now : Z) : State t Z := fun this =>
  let elapsed := (now - lastReset this)%Z in
  (ceil_thousandth (resetTime - elapsed), this).

End rateLimiter.

(** ** The submit listener, up to the request *)

(** What the listener decides before it sends anything: it refuses, with the
    seconds to wait; it shows the errors of the form; or it goes on to send
    the form. *)
Inductive Submission : Set :=
| refused (remainingTime : Z)
| invalid (errors : Errors.t)
| sent.

(** [now] is the time [canSubmit] reads, [later] the time
    [getRemainingTime] reads when it is called. *)
Definition onSubmit (now later : Z) (formData : FormData)
  : State rateLimiter.t Submission :=
  ok <- rateLimiter.canSubmit now ;;
  if negb ok then
    remainingTime <- rateLimiter.getRemainingTime later ;;
    ret (refused remainingTime)
  else
    let validation := validateFormData formData in
    if negb (isValid validation) then ret (invalid (errors validation))
    else rateLimiter.recordAttempt ;;; ret sent.

(** The listener run on a sequence of submit events, each with the two times
    it reads and the form as it is then. *)
Fixpoint onSubmits (events : list (Z * Z * FormData))
  : State rateLimiter.t (list Submission) :=
  match events with
  | [] => ret []
  | (now, later, formData) :: events' =>
      o <- onSubmit now later formData ;;
      os <- onSubmits events' ;;
      ret (o :: os)
  end.

(** The limiter once [canSubmit] has looked at the time. *)
Definition refreshed (now : Z) (this : rateLimiter.t) : rateLimiter.t :=
  snd (rateLimiter.canSubmit now this).

Definition is_sent (o : Submission) : bool :=
  match o with
  | sent => true
  | _ => false
  end.

(** On doubles, [Math.ceil(x / 1000)] is the integer [r] when
    [r - 1 < x / 1000 <= r]. *)
Definition is_ceil_thousandth_binary64 (x r : Z) : bool :=
  let q := PrimFloat.div (float_of_Z x) (float_of_Z 1000) in
  PrimFloat.ltb (float_of_Z (r - 1)) q && PrimFloat.leb q (float_of_Z r).

(** [p] holds of the integers from 0 up to [n], [n] excluded. *)
Definition all_below (n : N) (p : Z -> bool) : bool :=
  snd (N.iter n (fun s : Z * bool => ((fst s + 1)%Z, snd s && p (fst s))) (0%Z, true)).

(** A form filled in as the checks want it. *)
Module Inputs.

Definition filled : FormData := fun key =>
  if String.eqb key "name" then Some (js "Ada Lovelace")
  else if String.eqb key "email" then Some (js "ada@example.org")
  else if String.eqb key "phone" then Some (js "+33 (0)1 23 45")
  else if String.eqb key "service" then Some (js "coaching")
  else if String.eqb key "message" then Some (js "  Bonjour, je souhaite un rendez-vous.  ")
  else None.

(** Thirty-two bytes. *)
Definition bytes : list N := map N.of_nat (seq 100 32).

End Inputs.

(** ** More on the engine: notions used in the statements *)

Definition is_line {num : Type} (c : Cmd num) : bool :=
  match c with
  | line _ _ _ _ => true
  | _ => false
  end.

(** A generator whose draws are in [0, 1), as those of [Math.random] are. *)
Definition unit_draws (g : Rng Q) : Prop :=
  forall i, (0 <= stream g i < 1)%Q.

(** The streaks the engine can hold, in exact arithmetic, when the
    generator does what [Math.random] does. *)
Inductive streak_live : GoldLine.t Q -> Prop :=
| live_created (W H : Z) (g : Rng Q) :
    unit_draws g -> streak_live (fst (GoldLine.create W H g))
| live_updated (W H : Z) (g : Rng Q) (s : GoldLine.t Q) :
    unit_draws g -> streak_live s -> streak_live (fst (GoldLine.update W H s g)).

(** On doubles, the opacity of the scene at the scene time [e] is between 0
    and 1. *)
Definition alpha_in_range (e : Z) : bool :=
  PrimFloat.leb (float_of_Z 0) (sceneAlpha e)
  && PrimFloat.leb (sceneAlpha e) (float_of_Z 1).

(** ** Checks that are run *)

Section Checks.
Local Open Scope js_scope.

(** On doubles, at the scene time [e]: the two tests of [sceneAlpha] come
    out as they do on rationals (the ramps are the times below 42 and
    above 378), and the opacity is within [2^-50] of the rational one. *)
Definition alpha_agrees (e : Z) : bool :=
  let p : float := of_Z e / of_Z SCENE_DURATION in
  Bool.eqb (p <? $0.1) (e <? 42)%Z
  && Bool.eqb (p >? $0.9) (378 <? e)%Z
  && Qle_bool (Qabs (Q_of_float (sceneAlpha e) - sceneAlpha e)%Q) (1 # 2 ^ 50).

End Checks.

(** ** Relations used in the statements *)

Section Relations.
Context {num : Type}.

(** From [h] to [h'] the page is as it was, up to the random numbers drawn
    and to what was painted on top of what was there. *)
Definition same_page (h h' : Host num) : Prop :=
  hero_canvas h' = hero_canvas h /\ accueil h' = accueil h
  /\ innerWidth h' = innerWidth h /\ innerHeight h' = innerHeight h
  /\ resizeListeners h' = resizeListeners h
  /\ animationFrames h' = animationFrames h
  /\ exists l, canvas_log h' = canvas_log h ++ l.

End Relations.

(** The documented behaviour of a particle whose age passes its maximum
    lifetime: it is put back on the bottom edge of the surface, the line
    [y = H]. *)
Definition respawns_at_bottom_edge (W H : Z) (p : Particle.t Q) (g : Rng Q) : Prop :=
  (Particle.life p + $1 >? Particle.maxLife p)%js = true ->
  (Particle.y (fst (Particle.update W H p g)) == inject_Z H)%Q.

(** The streaks the engine can hold: one is made as the pool is filled, and
    then only [update()] touches it, on any frame, at any size of the
    surface, with the generator in any state. *)
Inductive streak_reachable {num : Type} {N : JSNumber num} : GoldLine.t num -> Prop :=
| streak_created (W H : Z) (g : Rng num) :
    streak_reachable (fst (GoldLine.create W H g))
| streak_updated (W H : Z) (g : Rng num) (s : GoldLine.t num) :
    streak_reachable s -> streak_reachable (fst (GoldLine.update W H s g)).

(** ** Sample inputs *)

Module Sample.

(** A generator on doubles: multiples of a thousandth, in [0, 1). *)
Definition thousandths (n : nat) : float :=
  PrimFloat.div (float_of_Z ((Z.of_nat n * 7919 + 13) mod 1000)) (float_of_Z 1000).

Definition generator : Rng float := {| stream := thousandths; drawn := 0 |}.

(** A generator on rationals that always yields one half. *)
Definition halves : Rng Q := {| stream := fun _ => 1 # 2; drawn := 0 |}.

(** Stand-ins for the host's functions, to run the code on. *)
Definition math : JSMath float :=
  {| PI := PrimFloat.div (float_of_Z 355) (float_of_Z 113);
     sin := fun x => x;
     cos := fun x => x;
     hypot := fun x y => PrimFloat.sqrt (PrimFloat.add (PrimFloat.mul x x) (PrimFloat.mul y y)) |}.

Definition mathQ : JSMath Q :=
  {| PI := 355 # 113;
     sin := fun x => x;
     cos := fun x => x;
     hypot := fun x y => Qabs x + Qabs y |}.

(** A page with the canvas, its hero section 800 by 600. *)
Definition page : Host float :=
  {| hero_canvas := Some (300, 150)%Z; accueil := Some (800, 600)%Z;
     innerWidth := 1024; innerHeight := 768;
     resizeListeners := 0; animationFrames := 0;
     rng := generator; canvas_log := [] |}.

(** The same page without the canvas. *)
Definition bare_page : Host float :=
  {| hero_canvas := None; accueil := Some (800, 600)%Z;
     innerWidth := 1024; innerHeight := 768;
     resizeListeners := 0; animationFrames := 0;
     rng := generator; canvas_log := [] |}.

(** A young particle about to cross the line above the surface. *)
Definition leaving : Particle.t float :=
  {| Particle.x := float_of_Z 100; Particle.y := float_of_Z (-10);
     Particle.vx := float_of_Z 0;
     Particle.vy := PrimFloat.div (float_of_Z (-1)) (float_of_Z 2);
     Particle.size := float_of_Z 1; Particle.alpha := float_of_Z 1;
     Particle.gold := false;
     Particle.life := float_of_Z 5; Particle.maxLife := float_of_Z 300 |}.

(** A particle in the middle of the surface whose next call is one too
    many. *)
Definition worn : Particle.t Q :=
  {| Particle.x := 100; Particle.y := 100;
     Particle.vx := 0; Particle.vy := - (1 # 2);
     Particle.size := 1; Particle.alpha := 1;
     Particle.gold := false;
     Particle.life := 300; Particle.maxLife := 300 |}.

(** An engine at its start with one particle in its pool, on a page where
    it has its listener and a frame requested. *)
Definition engine : Engine float :=
  {| W := 800; H := 600; particles := [leaving]; goldLines := []; shapes := [];
     sceneIndex := 0; sceneTime := 0; animT := 0 |}.

Definition running_page : Host float :=
  {| hero_canvas := Some (800, 600)%Z; accueil := Some (800, 600)%Z;
     innerWidth := 1024; innerHeight := 768;
     resizeListeners := 1; animationFrames := 1;
     rng := generator; canvas_log := [] |}.

End Sample.

(** ** What a frame does to the page *)

Section Page.
Context {num : Type} {N : JSNumber num} {M : JSMath num}.

Lemma bind_eq {S A B} (m : State S A) (k : A -> State S B) (s : S) :
  bind m k s = k (fst (m s)) (snd (m s)).
Proof. unfold bind. destruct (m s). reflexivity. Qed.

Lemma forEach_length {S A} (f : A -> State S A) (a : list A) (s : S) :
  List.length (fst (forEach f a s)) = List.length a.
Proof.
  revert s. induction a as [|x a IH]; intros s; [reflexivity|].
  cbn [forEach]. rewrite !bind_eq. cbn. rewrite IH. reflexivity.
Qed.

Lemma Array_from_length {S A} (n : nat) (f : State S A) (s : S) :
  List.length (fst (Array_from n f s)) = n.
Proof.
  revert s. induction n as [|n IH]; intros s; [reflexivity|].
  cbn [Array_from]. rewrite !bind_eq. cbn. rewrite IH. reflexivity.
Qed.

Lemma same_page_refl (h : Host num) : same_page h h.
Proof.
  unfold same_page. repeat split. exists []. rewrite app_nil_r. reflexivity.
Qed.

Lemma same_page_trans (h1 h2 h3 : Host num) :
  same_page h1 h2 -> same_page h2 h3 -> same_page h1 h3.
Proof.
  intros (A1 & A2 & A3 & A4 & A5 & A6 & l & A7) (B1 & B2 & B3 & B4 & B5 & B6 & l' & B7).
  unfold same_page. repeat split; try congruence.
  exists (l ++ l'). rewrite B7, A7, app_assoc. reflexivity.
Qed.

Lemma withRandom_same_page {A} (m : State (Rng num) A) (h : Host num) :
  same_page h (snd (withRandom m h)).
Proof.
  unfold withRandom. destruct (m (rng h)). cbn.
  unfold same_page; cbn. repeat split. exists []. rewrite app_nil_r. reflexivity.
Qed.

Lemma paint_same_page (c : list (Cmd num)) (h : Host num) :
  same_page h (snd (paint c h)).
Proof. unfold same_page; cbn. repeat split. exists c. reflexivity. Qed.

Lemma forEach_same_page {A} (f : A -> State (Host num) A) (a : list A) :
  (forall x h, same_page h (snd (f x h))) ->
  forall h, same_page h (snd (forEach f a h)).
Proof.
  intros Hf. induction a as [|x a IH]; intros h; [apply same_page_refl|].
  cbn [forEach]. rewrite !bind_eq. cbn [ret snd].
  eapply same_page_trans; [apply Hf|apply IH].
Qed.

(** Updating an element and painting it. *)
Lemma update_draw_same_page {A} (u : A -> State (Rng num) A)
      (d : A -> list (Cmd num)) (x : A) (h : Host num) :
  same_page h (snd ((x' <- withRandom (u x) ;; paint (d x') ;;; ret x') h)).
Proof.
  rewrite !bind_eq. cbn [ret snd].
  apply same_page_trans with (snd (withRandom (u x) h));
    [apply withRandom_same_page|apply paint_same_page].
Qed.

(** One call of [loop()], seen from the page: the listeners and the page's
    boxes are left alone, one more frame is requested, the pools keep their
    slots, and what is painted starts by clearing the surface at its
    present size and setting the opacity of the scene. *)
Lemma loop_page (e e' : Engine num) (h h' : Host num) :
  loop e h = Normal (e', h') ->
  hero_canvas h' = hero_canvas h /\ accueil h' = accueil h
  /\ innerWidth h' = innerWidth h /\ innerHeight h' = innerHeight h
  /\ resizeListeners h' = resizeListeners h
  /\ animationFrames h' = S (animationFrames h)
  /\ (exists scene l,
        index scenes (sceneIndex (tick e)) = Some scene
        /\ canvas_log h'
           = canvas_log h
             ++ [clearRect ($0)%js ($0)%js (of_Z (W e)) (of_Z (H e)); save;
                 globalAlpha (sceneAlpha (sceneTime (tick e)))]
             ++ scene (W e) (H e) (animT (tick e)) ++ restore :: l)
  /\ List.length (particles e') = List.length (particles e)
  /\ List.length (goldLines e') = List.length (goldLines e)
  /\ List.length (shapes e') = List.length (shapes e).
Proof.
  unfold loop.
  destruct (index scenes (sceneIndex (tick e))) as [scene|] eqn:Sc; [|discriminate].
  intros E. injection E as E.
  rewrite bind_eq in E.
  set (h1 := snd (paint _ h)) in E.
  assert (P1 : canvas_log h1
               = canvas_log h
                 ++ [clearRect ($0)%js ($0)%js (of_Z (W e)) (of_Z (H e)); save;
                     globalAlpha (sceneAlpha (sceneTime (tick e)))]
                 ++ scene (W e) (H e) (animT (tick e)) ++ [restore]).
  { subst h1. cbn [paint snd canvas_log].
    replace (W (tick e)) with (W e) by (unfold tick; destruct (_ >=? _)%Z; reflexivity).
    replace (H (tick e)) with (H e) by (unfold tick; destruct (_ >=? _)%Z; reflexivity).
    reflexivity. }
  assert (S1 : same_page h h1) by apply paint_same_page.
  clearbody h1.
  rewrite bind_eq in E.
  set (r2 := forEach _ (particles (tick e)) h1) in E.
  assert (S2 : same_page h1 (snd r2))
    by (apply forEach_same_page; intros; apply update_draw_same_page).
  assert (L2 : List.length (fst r2) = List.length (particles e)).
  { subst r2. rewrite forEach_length. unfold tick; destruct (_ >=? _)%Z; reflexivity. }
  clearbody r2. destruct r2 as [ps h2]. cbn [fst snd] in *.
  rewrite bind_eq in E.
  set (r3 := forEach _ (goldLines (tick e)) h2) in E.
  assert (S3 : same_page h2 (snd r3))
    by (apply forEach_same_page; intros; apply update_draw_same_page).
  assert (L3 : List.length (fst r3) = List.length (goldLines e)).
  { subst r3. rewrite forEach_length. unfold tick; destruct (_ >=? _)%Z; reflexivity. }
  clearbody r3. destruct r3 as [gs h3]. cbn [fst snd] in *.
  rewrite bind_eq in E.
  set (r4 := forEach _ (shapes (tick e)) h3) in E.
  assert (S4 : same_page h3 (snd r4))
    by (apply forEach_same_page; intros; apply update_draw_same_page).
  assert (L4 : List.length (fst r4) = List.length (shapes e)).
  { subst r4. rewrite forEach_length. unfold tick; destruct (_ >=? _)%Z; reflexivity. }
  clearbody r4. destruct r4 as [ss h4]. cbn [fst snd] in *.
  rewrite !bind_eq in E. cbn in E. injection E as <- <-. cbn.
  pose proof (same_page_trans S1 (same_page_trans S2 (same_page_trans S3 S4))) as S.
  destruct S as (A1 & A2 & A3 & A4 & A5 & A6 & l & A7).
  destruct (same_page_trans S2 (same_page_trans S3 S4)) as (_ & _ & _ & _ & _ & _ & l2 & B7).
  repeat split; try congruence.
  exists scene, (l2 ++ vignette (tick e)). split; [reflexivity|].
  rewrite B7, P1. rewrite <- !app_assoc. reflexivity.
Qed.

End Page.
(** * Properties *)

(** ** The scene clock *)

Section Clock.
Context {num : Type} {N : JSNumber num} {M : JSMath num}.

(** What [loop()] leaves in the clock and in the surface size is what
    [tick] computed: the rest of the call only paints and moves the pools. *)
Lemma loop_engine (e e' : Engine num) (h h' : Host num) :
  loop e h = Normal (e', h') ->
  sceneIndex e' = sceneIndex (tick e) /\ sceneTime e' = sceneTime (tick e)
  /\ animT e' = animT (tick e) /\ W e' = W e /\ H e' = H e.
Proof.
  unfold loop. destruct (index scenes (sceneIndex (tick e))) as [scene|]; [|discriminate].
  intros E. injection E as E. unfold bind, ret in E.
  repeat match type of E with
         | context [let (_, _) := ?m in _] => destruct m
         end.
  injection E as <- _. cbn.
  unfold tick. destruct (_ >=? _)%Z; cbn; auto.
Qed.

(** [loop()] throws only when [scenes[sceneIndex]] is [undefined]. *)
Lemma loop_normal (e : Engine num) (h : Host num) :
  (0 <= sceneIndex (tick e) < 5)%Z -> exists s, loop e h = Normal s.
Proof.
  intros R. unfold loop, index.
  destruct (Z.ltb_spec (sceneIndex (tick e)) 0); [lia|].
  destruct (nth_error scenes (Z.to_nat (sceneIndex (tick e)))) eqn:E.
  - eexists; reflexivity.
  - apply nth_error_None in E. cbn in E. lia.
Qed.

Lemma tick_clock (e : Engine num) (n : Z) :
  (0 <= n)%Z ->
  sceneIndex e = ((n / 420) mod 5)%Z -> sceneTime e = (n mod 420)%Z -> animT e = n ->
  sceneIndex (tick e) = (((n + 1) / 420) mod 5)%Z
  /\ sceneTime (tick e) = ((n + 1) mod 420)%Z /\ animT (tick e) = (n + 1)%Z.
Proof.
  intros Hn Hi Ht Ha. unfold tick, SCENE_DURATION.
  assert (Hd : (n = 420 * (n / 420) + n mod 420)%Z) by (apply Z.div_mod; lia).
  assert (Hr : (0 <= n mod 420 < 420)%Z) by (apply Z.mod_pos_bound; lia).
  assert (Hq : (0 <= n / 420)%Z) by (apply Z.div_pos; lia).
  rewrite Ht, Hi, Ha.
  destruct (Z.geb_spec (n mod 420 + 1) 420) as [G|G]; cbn.
  - assert (Hq1 : ((n + 1) / 420 = n / 420 + 1)%Z).
    { symmetry. apply (Z.div_unique (n + 1) 420 (n / 420 + 1) 0); lia. }
    assert (Hr1 : ((n + 1) mod 420 = 0)%Z).
    { symmetry. apply (Z.mod_unique (n + 1) 420 (n / 420 + 1) 0); lia. }
    rewrite Hq1, Hr1. repeat split.
    rewrite Z.rem_mod_nonneg by (try apply Z.add_nonneg_nonneg; try apply Z.mod_pos_bound; lia).
    change (Z.pos (Pos.of_succ_nat 4)) with 5%Z.
    rewrite Z.add_mod_idemp_l by lia. reflexivity.
  - assert (Hq1 : ((n + 1) / 420 = n / 420)%Z).
    { symmetry. apply (Z.div_unique (n + 1) 420 (n / 420) (n mod 420 + 1)); lia. }
    assert (Hr1 : ((n + 1) mod 420 = n mod 420 + 1)%Z).
    { symmetry. apply (Z.mod_unique (n + 1) 420 (n / 420) (n mod 420 + 1)); lia. }
    rewrite Hq1, Hr1. auto.
Qed.

(** After [n] calls of [loop()] on a clock that starts at zero. *)
Lemma frames_clock (e : Engine num) (h : Host num) (n : nat) :
  sceneIndex e = 0%Z -> sceneTime e = 0%Z -> animT e = 0%Z ->
  exists e' h', frames n e h = Normal (e', h')
    /\ sceneIndex e' = ((Z.of_nat n / 420) mod 5)%Z
    /\ sceneTime e' = (Z.of_nat n mod 420)%Z
    /\ animT e' = Z.of_nat n
    /\ W e' = W e /\ H e' = H e.
Proof.
  intros Hi Ht Ha. induction n as [|n IH].
  - exists e, h. cbn. repeat split; assumption.
  - destruct IH as (e1 & h1 & F & I1 & T1 & A1 & W1 & H1).
    destruct (tick_clock e1 (n := Z.of_nat n) ltac:(lia) I1 T1 A1) as (I2 & T2 & A2).
    replace (Z.of_nat n + 1)%Z with (Z.of_nat (S n)) in * by lia.
    destruct (loop_normal e1 h1) as [[e2 h2] L].
    { rewrite I2. apply Z.mod_pos_bound. lia. }
    destruct (loop_engine _ _ L) as (I3 & T3 & A3 & W3 & H3).
    exists e2, h2. cbn [frames]. rewrite F. split; [exact L|].
    repeat split; congruence.
Qed.

End Clock.


(** ** Starting *)

Section Start.
Context {num : Type} {N : JSNumber num} {M : JSMath num}.

Lemma Array_from_same_page {A} (n : nat) (m : State (Rng num) A) (h : Host num) :
  same_page h (snd (Array_from n (withRandom m) h)).
Proof.
  revert h. induction n as [|n IH]; intros h; [apply same_page_refl|].
  cbn [Array_from]. rewrite !bind_eq. cbn [ret snd].
  apply same_page_trans with (snd (withRandom m h));
    [apply withRandom_same_page|apply IH].
Qed.

(** Filling the three pools, whatever their sizes. *)
Lemma fill_pools (n1 n2 n3 : nat) (e : Engine num) (h : Host num) :
let r := (ps <- Array_from n1 (withRandom (Particle.reset (W e) (H e))) ;;
          gs <- Array_from n2 (withRandom (GoldLine.create (W e) (H e))) ;;
          ss <- Array_from n3 (withRandom (GeomShape.reset (W e) (H e))) ;;
          ret (set_pools e ps gs ss)) h in
List.length (particles (fst r)) = n1
/\ List.length (goldLines (fst r)) = n2
/\ List.length (shapes (fst r)) = n3
/\ W (fst r) = W e /\ H (fst r) = H e
/\ sceneIndex (fst r) = sceneIndex e /\ sceneTime (fst r) = sceneTime e
/\ animT (fst r) = animT e
/\ same_page h (snd r).
Proof.
intros r. subst r. rewrite !bind_eq.
cbn [ret fst snd set_pools particles goldLines shapes W H sceneIndex sceneTime animT].
rewrite !Array_from_length. repeat (split; [reflexivity|]).
repeat match goal with
       | |- same_page ?a (snd (Array_from _ (withRandom _) ?b)) =>
           first [ apply Array_from_same_page
                 | apply same_page_trans with b; [|apply Array_from_same_page] ]
       end.
Qed.

(** What is there when [loop()] is first called: the surface measured, one
    listener more, the pools filled, the clock at zero, no frame requested
    yet. *)
Lemma setup_state (h : Host num) :
let e := fst (setup h) in
let h' := snd (setup h) in
List.length (particles e) = 150%nat
/\ List.length (goldLines e) = 10%nat
/\ List.length (shapes e) = 16%nat
/\ W e = match accueil h with Some box => fst box | None => innerWidth h end
/\ H e = match accueil h with Some box => snd box | None => innerHeight h end
/\ sceneIndex e = 0%Z /\ sceneTime e = 0%Z /\ animT e = 0%Z
/\ hero_canvas h' = Some (W e, H e)
/\ resizeListeners h' = S (resizeListeners h)
/\ animationFrames h' = animationFrames h.
Proof.
unfold setup, resize.
set (w := match accueil h with Some box => fst box | None => innerWidth h end).
set (h0 := match accueil h with Some box => snd box | None => innerHeight h end).
set (e0 := set_size _ w h0).
set (h1 := set_canvas h (Some (w, h0))).
rewrite (bind_eq addResizeListener).
destruct (fill_pools 150 10 16 e0 (snd (addResizeListener h1)))
  as (L1 & L2 & L3 & L4 & L5 & L6 & L7 & L8 & S).
destruct S as (A1 & _ & _ & _ & A5 & A6 & _).
cbv zeta. rewrite L1, L2, L3, L4, L5, L6, L7, L8, A1, A5, A6.
repeat split.
Qed.

(** With the canvas on the page the engine starts: pools of 150, 10 and 16,
    a listener, a first frame painted and the next one requested. *)
Lemma present_canvas_starts (h : Host num) (c : Z * Z) :
  hero_canvas h = Some c ->
  exists e h', heroCanvas h = Normal (Some e, h')
    /\ List.length (particles e) = 150%nat
    /\ List.length (goldLines e) = 10%nat
    /\ List.length (shapes e) = 16%nat
    /\ resizeListeners h' = S (resizeListeners h)
    /\ animationFrames h' = S (animationFrames h).
Proof.
  intros C. unfold heroCanvas. rewrite C.
  destruct (setup_state h) as (L1 & L2 & L3 & _ & _ & I & T & A & _ & R & F).
  destruct (setup h) as [e0 h0]. cbn [fst snd] in *.
  destruct (loop_normal e0 h0) as [[e1 h1] L].
  { unfold tick. rewrite I, T. cbn. lia. }
  rewrite L. exists e1, h1. split; [reflexivity|].
  destruct (loop_page _ _ L) as (_ & _ & _ & _ & R1 & F1 & _ & P1 & P2 & P3).
  repeat split; congruence.
Qed.

(** Past the guard, the function is [setup] and a first call of [loop()]. *)
Lemma heroCanvas_first_frame (h : Host num) (c : Z * Z) :
  hero_canvas h = Some c ->
  heroCanvas h
  = match frames 1 (fst (setup h)) (snd (setup h)) with
    | Normal (e, h') => Normal (Some e, h')
    | TypeError => TypeError
    end.
Proof.
  intros C. unfold heroCanvas. rewrite C. cbn [frames].
  destruct (setup h) as [e0 h0]. reflexivity.
Qed.

End Start.

(** C3: when the page has no [#hero-canvas] element the function returns at
    once, normally: no closure is left behind (no pools, no clock), the page
    is exactly as it was (no listener added, no frame requested, no random
    number drawn, nothing painted), and a later resize of the window finds
    no engine to run. *)
Theorem absent_canvas_noop
  {num : Type} {N : JSNumber num} {M : JSMath num} (h : Host num) :
  hero_canvas h = None ->
  heroCanvas h = Normal (None, h)
  /\ forall box iw ih,
       let s := windowResized box iw ih (None, h) in
       fst s = None
       /\ hero_canvas (snd s) = None
       /\ resizeListeners (snd s) = resizeListeners h
       /\ animationFrames (snd s) = animationFrames h
       /\ rng (snd s) = rng h
       /\ canvas_log (snd s) = canvas_log h.
Proof.
  intros C. split.
  - unfold heroCanvas. rewrite C. reflexivity.
  - intros box iw ih. cbn. rewrite C. repeat split.
Qed.

Lemma absent_canvas_noop_witness :
  hero_canvas Sample.bare_page = None
  /\ heroCanvas (M := Sample.math) Sample.bare_page = Normal (None, Sample.bare_page).
Proof.
  split; [reflexivity|].
  apply (absent_canvas_noop (M := Sample.math) Sample.bare_page). reflexivity.
Defined.

(** The sample page, with its canvas, gets an engine. *)
Example sample_page_starts :
  exists e h', heroCanvas (M := Sample.math) Sample.page = Normal (Some e, h')
    /\ List.length (particles e) = 150%nat
    /\ resizeListeners h' = 1%nat /\ animationFrames h' = 1%nat.
Proof.
  destruct (@present_canvas_starts float binary64 Sample.math Sample.page (300, 150)%Z
              eq_refl) as (e & h' & E & P & _ & _ & R & F).
  exists e, h'. repeat split; assumption.
Qed.

(** C1: after [N] calls of the frame loop from the start of the engine the
    scene index is [(N / 420) mod 5] and the time within the scene is
    [N mod 420]; through the first 419 calls the scene is scene 0 with the
    time counting the calls, and call 420 moves to scene 1 with the time
    back at 0: one change of scene in 420 calls. *)
Theorem scene_clock_after_frames
  {num : Type} {N : JSNumber num} {M : JSMath num} (h : Host num) :
  (forall n : nat, exists e' h',
      frames n (fst (setup h)) (snd (setup h)) = Normal (e', h')
      /\ sceneIndex e' = ((Z.of_nat n / 420) mod 5)%Z
      /\ sceneTime e' = (Z.of_nat n mod 420)%Z)
  /\ (forall n : nat, (n < 420)%nat -> exists e' h',
      frames n (fst (setup h)) (snd (setup h)) = Normal (e', h')
      /\ sceneIndex e' = 0%Z /\ sceneTime e' = Z.of_nat n)
  /\ (exists e' h',
      frames 420 (fst (setup h)) (snd (setup h)) = Normal (e', h')
      /\ sceneIndex e' = 1%Z /\ sceneTime e' = 0%Z).
Proof.
  destruct (setup_state h) as (_ & _ & _ & _ & _ & Hi & Ht & Ha & _).
  assert (G : forall n : nat, exists e' h',
      frames n (fst (setup h)) (snd (setup h)) = Normal (e', h')
      /\ sceneIndex e' = ((Z.of_nat n / 420) mod 5)%Z
      /\ sceneTime e' = (Z.of_nat n mod 420)%Z).
  { intros n. destruct (@frames_clock num N M (fst (setup h)) (snd (setup h)) n Hi Ht Ha)
      as (e' & h' & F & I & T & _). exists e', h'. auto. }
  split; [exact G|]. split.
  - intros n Hn. destruct (G n) as (e' & h' & F & I & T).
    exists e', h'. split; [exact F|].
    rewrite I, T, Z.div_small by lia. split; [reflexivity | apply Z.mod_small; lia].
  - destruct (G 420%nat) as (e' & h' & F & I & T).
    exists e', h'. split; [exact F|]. rewrite I, T. split; reflexivity.
Qed.

(** ** The opacity of the scene *)

Section Alpha.
Local Open Scope Q_scope.

Lemma progress_below (e : Z) : inject_Z e / 420 < 0.1 <-> (e < 42)%Z.
Proof. unfold Qlt, Qdiv, Qmult, Qinv; cbn. lia. Qed.

Lemma progress_above (e : Z) : 0.9 < inject_Z e / 420 <-> (378 < e)%Z.
Proof. unfold Qlt, Qdiv, Qmult, Qinv; cbn. lia. Qed.

(** [sceneAlpha] on rationals, by the branch taken. *)
Lemma sceneAlpha_exact (e : Z) :
  let p := inject_Z e / 420 in
  (p < 0.1 -> sceneAlpha e = p / 0.1)
  /\ (0.9 < p -> sceneAlpha e = (1 - p) / 0.1)
  /\ (0.1 <= p <= 0.9 -> sceneAlpha e = 1).
Proof.
  intros p. unfold sceneAlpha. cbn -[Qdiv Qminus Qle_bool].
  change (inject_Z e / inject_Z SCENE_DURATION) with p.
  change (inject_Z 1 / inject_Z 10) with 0.1.
  change (inject_Z 9 / inject_Z 10) with 0.9.
  destruct (Qle_bool 0.1 p) eqn:A;
    [apply Qle_bool_iff in A
    |assert (A' : ~ 0.1 <= p) by (rewrite <- Qle_bool_iff; congruence)];
    (destruct (Qle_bool p 0.9) eqn:B;
     [apply Qle_bool_iff in B
     |assert (B' : ~ p <= 0.9) by (rewrite <- Qle_bool_iff; congruence)]);
    cbn [negb]; repeat split; intros C; try reflexivity; exfalso; lra.
Qed.

Lemma sceneAlpha_ramp_up (e : Z) :
  (e < 42)%Z -> sceneAlpha e == inject_Z e / 42.
Proof.
  intros L. destruct (sceneAlpha_exact e) as (U & _ & _).
  rewrite U by (apply progress_below; exact L).
  unfold Qeq, Qdiv, Qmult, Qinv; cbn. lia.
Qed.

Lemma sceneAlpha_plateau (e : Z) :
  (42 <= e <= 378)%Z -> sceneAlpha e == 1.
Proof.
  intros L. destruct (sceneAlpha_exact e) as (_ & _ & P).
  rewrite P; [reflexivity|].
  split; apply Qnot_lt_le; [rewrite progress_below|rewrite progress_above]; lia.
Qed.

Lemma sceneAlpha_ramp_down (e : Z) :
  (378 < e)%Z -> sceneAlpha e == inject_Z (420 - e) / 42.
Proof.
  intros L. destruct (sceneAlpha_exact e) as (_ & D & _).
  rewrite D by (apply progress_above; exact L).
  unfold Z.sub. rewrite inject_Z_plus, inject_Z_opp. field.
Qed.

(** The check of [alpha_agrees], run at each of the 420 scene times. *)
Lemma alpha_agrees_all : forallb alpha_agrees (upto 420) = true.
Proof. vm_compute. reflexivity. Qed.

Lemma In_upto (n i : Z) : (0 <= i < n)%Z -> In i (upto n).
Proof.
  intros R. unfold upto. apply in_map_iff. exists (Z.to_nat i).
  split; [lia|]. apply in_seq. lia.
Qed.

End Alpha.

(** C2: at a scene time [e] with [0 <= e < 420] the opacity of the scene is
    [(e/420)/0.1] when [e/420 < 0.1], [(1 - e/420)/0.1] when [e/420 > 0.9]
    and 1 otherwise.  In exact arithmetic this is [e/42] on the first 42
    frames, 1 from frame 42 to frame 378 and [(420 - e)/42] after: up from 0
    over the first tenth, full over the middle, down over the last tenth.
    On doubles the same branches are taken at the same times, and the value
    is within [2^-50] of the exact one. *)
Theorem scene_alpha_ramp (e : Z) (He : (0 <= e < 420)%Z) :
  let p : Q := inject_Z e / 420 in
  let pf : float := (of_Z e / of_Z SCENE_DURATION)%js in
  ((p < 0.1 -> sceneAlpha e = p / 0.1)
   /\ (0.9 < p -> sceneAlpha e = (1 - p) / 0.1)
   /\ (0.1 <= p <= 0.9 -> sceneAlpha e = 1))
  /\ (((e < 42)%Z -> sceneAlpha e == inject_Z e / 42)
      /\ ((42 <= e <= 378)%Z -> sceneAlpha e == 1)
      /\ ((378 < e)%Z -> sceneAlpha e == inject_Z (420 - e) / 42))
  /\ (sceneAlpha e
      = (if pf <? $0.1 then pf / $0.1
         else if pf >? $0.9 then ($1 - pf) / $0.1 else $1)%js
      /\ (pf <? $0.1)%js = (e <? 42)%Z
      /\ (pf >? $0.9)%js = (378 <? e)%Z
      /\ Qabs (Q_of_float (sceneAlpha e) - sceneAlpha e) <= 1 # 2 ^ 50).
Proof.
  intros p pf. split; [exact (sceneAlpha_exact e)|]. split.
  - split; [exact (@sceneAlpha_ramp_up e)|].
    split; [exact (@sceneAlpha_plateau e)|exact (@sceneAlpha_ramp_down e)].
  - pose proof alpha_agrees_all as A. rewrite forallb_forall in A.
    specialize (A e (In_upto He)). unfold alpha_agrees in A.
    apply andb_prop in A. destruct A as [A A3].
    apply andb_prop in A. destruct A as [A1 A2].
    apply eqb_prop in A1. apply eqb_prop in A2. apply Qle_bool_iff in A3.
    split; [reflexivity|]. split; [exact A1|]. split; [exact A2|exact A3].
Qed.

(** At a quarter of the way up the first ramp. *)
Lemma scene_alpha_ramp_witness :
  (0 <= 21 < 420)%Z /\ sceneAlpha (num := Q) 21 == 0.5.
Proof.
  split; [lia|].
  destruct (@scene_alpha_ramp 21 ltac:(lia)) as (_ & (U & _) & _).
  rewrite U by lia. reflexivity.
Defined.

(** On doubles, at the ends of the ramps. *)
Example scene_alpha_at_ends :
  sceneAlpha (num := float) 0 = float_of_Z 0
  /\ sceneAlpha (num := float) 42 = float_of_Z 1
  /\ sceneAlpha (num := float) 378 = float_of_Z 1
  /\ PrimFloat.ltb (sceneAlpha (num := float) 41) (float_of_Z 1) = true
  /\ PrimFloat.ltb (sceneAlpha (num := float) 379) (float_of_Z 1) = true.
Proof. vm_compute. repeat split. Qed.

(** ** Particles *)

Section ParticleFacts.
Context {num : Type} {N : JSNumber num}.
Local Open Scope js_scope.
Import Particle.

(** [reset()] draws eight numbers. *)
Lemma reset_drawn (W H : Z) (g : Rng num) :
  drawn (snd (reset W H g)) = (drawn g + 8)%nat.
Proof. cbn. lia. Qed.

Lemma reset_stream (W H : Z) (g : Rng num) :
  stream (snd (reset W H g)) = stream g.
Proof. reflexivity. Qed.

(** A call that draws nothing is not a [reset()]. *)
Lemma reset_not_ret (W H : Z) (p : t num) (g : Rng num) :
  reset W H g <> (p, g).
Proof.
  intros E. apply (f_equal (fun r => drawn (snd r))) in E.
  rewrite reset_drawn in E. cbn in E. lia.
Qed.

(** The two ways out of [update()]. *)
Lemma update_cases (W H : Z) (p : t num) (g : Rng num) :
  update W H p g
  = if (life (move p) >? maxLife (move p)) || (y (move p) <? - $10)
    then reset W H g else (move p, g).
Proof.
  unfold update.
  destruct ((life (move p) >? maxLife (move p)) || (y (move p) <? - $10));
    reflexivity.
Qed.

Lemma updates_S (k : nat) (W H : Z) (p : t num) (g : Rng num) :
  updates (S k) W H p g
  = update W H (fst (updates k W H p g)) (snd (updates k W H p g)).
Proof.
  cbn [updates]. unfold bind. destruct (updates k W H p g). reflexivity.
Qed.

(** As long as no call finds the particle too old or above the top, the
    calls only move it. *)
Lemma updates_move (k : nat) (W H : Z) (p : t num) (g : Rng num) :
  (forall j, (j < k)%nat ->
     let q := move (Nat.iter j move p) in
     (life q >? maxLife q) = false /\ (y q <? - $10) = false) ->
  updates k W H p g = (Nat.iter k move p, g).
Proof.
  induction k as [|k IH]; intros Hk; [reflexivity|].
  rewrite updates_S, IH by (intros j Hj; apply Hk; lia).
  cbn [fst snd]. rewrite update_cases.
  destruct (Hk k ltac:(lia)) as [A B]. rewrite A, B. reflexivity.
Qed.

End ParticleFacts.

(** C4: on a call of [Particle.update] that does not take the particle above
    the top of the surface ([y < -10] is false after the move), the particle
    is reinitialised on that call if and only if its incremented age exceeds
    its own [maxLife], and is only moved otherwise.  A particle that was just
    initialised has age 0, and no call reinitialises it before the call on
    which its age first exceeds [maxLife] (or it leaves by the top). *)
Theorem particle_reset_iff_expired
  {num : Type} {N : JSNumber num} (W H : Z) (p : Particle.t num) (g : Rng num) :
  ((Particle.y p + Particle.vy p <? - $10)%js = false ->
     (Particle.update W H p g = Particle.reset W H g
      <-> (Particle.life p + $1 >? Particle.maxLife p)%js = true)
     /\ ((Particle.life p + $1 >? Particle.maxLife p)%js = false ->
         Particle.update W H p g = (Particle.move p, g)))
  /\ Particle.life (fst (Particle.reset W H g)) = ($0)%js
  /\ (forall k : nat,
        (forall j, (j < k)%nat ->
           let q := Nat.iter j Particle.move p in
           (Particle.life q + $1 >? Particle.maxLife q)%js = false
           /\ (Particle.y q + Particle.vy q <? - $10)%js = false) ->
        Particle.updates k W H p g = (Nat.iter k Particle.move p, g)).
Proof.
  split; [|split].
  - intros B. rewrite update_cases. cbn [Particle.move Particle.y Particle.life Particle.maxLife].
    rewrite B, orb_false_r.
    destruct (Particle.life p + $1 >? Particle.maxLife p)%js; split.
    + split; reflexivity.
    + discriminate.
    + split; [|discriminate]. intros E. symmetry in E.
      exfalso. exact (reset_not_ret E).
    + reflexivity.
  - reflexivity.
  - intros k Hk. apply updates_move. intros j Hj. exact (Hk j Hj).
Qed.

(** C10: a call of [Particle.update] that takes the particle above the top
    of the surface ([y < -10] after the move) reinitialises it, whatever its
    age. *)
Theorem particle_reset_when_above_top
  {num : Type} {N : JSNumber num} (W H : Z) (p : Particle.t num) (g : Rng num) :
  (Particle.y p + Particle.vy p <? - $10)%js = true ->
  Particle.update W H p g = Particle.reset W H g.
Proof.
  intros B. rewrite update_cases.
  cbn [Particle.move Particle.y]. rewrite B, orb_true_r. reflexivity.
Qed.

(** A particle five frames old crosses the line above the surface and is
    reinitialised. *)
Lemma particle_reset_when_above_top_witness :
  (Particle.y Sample.leaving + Particle.vy Sample.leaving <? - $10)%js = true
  /\ (Particle.life Sample.leaving + $1 >? Particle.maxLife Sample.leaving)%js = false
  /\ Particle.update 800 600 Sample.leaving Sample.generator
     = Particle.reset 800 600 Sample.generator.
Proof.
  split; [vm_compute; reflexivity|]. split; [vm_compute; reflexivity|].
  apply particle_reset_when_above_top. vm_compute. reflexivity.
Defined.

Section Respawn.
Local Open Scope Q_scope.

(** On rationals, with draws in [0, 1) and a surface that is not empty, a
    particle is put back somewhere on the surface, strictly above its bottom
    edge, moving up, with between 200 and 500 frames to live. *)
Lemma reset_on_surface (W H : Z) (g : Rng Q) :
  (forall i, 0 <= stream g i < 1) -> (0 < W)%Z -> (0 < H)%Z ->
  let p := fst (Particle.reset W H g) in
  0 <= Particle.x p < inject_Z W
  /\ 0 <= Particle.y p < inject_Z H
  /\ - (7 # 10) < Particle.vy p <= - (1 # 10)
  /\ 200 <= Particle.maxLife p < 500.
Proof.
  intros R HW HH. cbn -[Qmult Qplus Qminus Qopp Qdiv inject_Z].
  change (inject_Z 6 / inject_Z 10) with (6 # 10).
  change (inject_Z 1 / inject_Z 10) with (1 # 10).
  pose proof (R (drawn g)) as R0. pose proof (R (S (drawn g))) as R1.
  pose proof (R (S (S (S (drawn g))))) as R3.
  pose proof (R (S (S (S (S (S (S (S (drawn g))))))))) as R7.
  assert (PW : 0 < inject_Z W) by (unfold Qlt; cbn; lia).
  assert (PH : 0 < inject_Z H) by (unfold Qlt; cbn; lia).
  change (inject_Z 200) with 200. change (inject_Z 300) with 300.
  repeat split; try nra; try lra.
Qed.

(** The same when the surface may be empty: the position is on the surface,
    borders included, and strictly inside the far borders of a surface that
    has a width and a height.  With no height the particle is at [y = 0]. *)
Lemma reset_within_surface (W H : Z) (g : Rng Q) :
  (forall i, 0 <= stream g i < 1) -> (0 <= W)%Z -> (0 <= H)%Z ->
  let p := fst (Particle.reset W H g) in
  0 <= Particle.x p <= inject_Z W
  /\ 0 <= Particle.y p <= inject_Z H
  /\ ((0 < W)%Z -> Particle.x p < inject_Z W)
  /\ ((0 < H)%Z -> Particle.y p < inject_Z H)
  /\ (H = 0%Z -> Particle.y p == 0).
Proof.
  intros R HW HH. cbn -[Qmult Qplus Qminus Qopp Qdiv inject_Z].
  pose proof (R (drawn g)) as R0. pose proof (R (S (drawn g))) as R1.
  assert (PW : 0 <= inject_Z W)
    by (change 0 with (inject_Z 0); rewrite <- Zle_Qle; exact HW).
  assert (PH : 0 <= inject_Z H)
    by (change 0 with (inject_Z 0); rewrite <- Zle_Qle; exact HH).
  split; [split; nra|]. split; [split; nra|]. split; [|split].
  - intros L. assert (0 < inject_Z W)
      by (change 0 with (inject_Z 0); rewrite <- Zlt_Qlt; exact L). nra.
  - intros L. assert (0 < inject_Z H)
      by (change 0 with (inject_Z 0); rewrite <- Zlt_Qlt; exact L). nra.
  - intros ->. change (inject_Z 0) with 0. ring.
Qed.

End Respawn.

(** C5, as the code has it: on the call of [Particle.update] that finds the
    age above [maxLife], [Particle.reset] overwrites the particle with the
    next eight random numbers: a position [(r0 * W, r1 * H)] drawn over the
    whole surface, a new velocity, age 0 and a new [maxLife]; the pool keeps
    its slots from one frame to the next.  In exact arithmetic, with draws
    in [0, 1) and a surface of width and height 0 or more, the position is
    on the surface, borders included; it is strictly above the bottom edge
    when the surface has a height, and at [y = 0] when it has none. *)
Theorem particle_respawn_in_place
  {num : Type} {N : JSNumber num} {M : JSMath num}
  (W H : Z) (p : Particle.t num) (g : Rng num) :
  (Particle.life p + $1 >? Particle.maxLife p)%js = true ->
  (let r i := stream g (drawn g + i) in
   Particle.update W H p g
   = ({| Particle.x := r 0%nat * of_Z W;
         Particle.y := r 1%nat * of_Z H;
         Particle.vx := (r 2%nat - $0.5) * $0.4;
         Particle.vy := - r 3%nat * $0.6 - $0.1;
         Particle.size := r 4%nat * $2.5 + $0.3;
         Particle.alpha := r 5%nat * $0.7 + $0.1;
         Particle.gold := r 6%nat >? $0.6;
         Particle.life := $0;
         Particle.maxLife := $200 + r 7%nat * $300 |},
      {| stream := stream g; drawn := drawn g + 8 |}))%js
  /\ (forall (e e' : Engine num) (h h' : Host num),
        loop e h = Normal (e', h') ->
        List.length (particles e') = List.length (particles e))
  /\ (forall (W' H' : Z) (g' : Rng Q),
        (forall i, 0 <= stream g' i < 1) -> (0 <= W')%Z -> (0 <= H')%Z ->
        (0 <= Particle.x (fst (Particle.reset W' H' g')) <= inject_Z W'
         /\ 0 <= Particle.y (fst (Particle.reset W' H' g')) <= inject_Z H')
        /\ ((0 < W')%Z ->
            Particle.x (fst (Particle.reset W' H' g')) < inject_Z W')
        /\ ((0 < H')%Z ->
            Particle.y (fst (Particle.reset W' H' g')) < inject_Z H')
        /\ (H' = 0%Z -> Particle.y (fst (Particle.reset W' H' g')) == 0)).
Proof.
  intros E. split; [|split].
  - rewrite update_cases. cbn [Particle.move Particle.life Particle.maxLife].
    rewrite E. cbn [orb]. unfold Particle.reset, random, bind, ret. cbn [stream drawn].
    rewrite !Nat.add_succ_r, Nat.add_0_r. reflexivity.
  - intros e e' h h' L. apply (loop_page _ _ L).
  - intros W' H' g' R HW HH.
    destruct (reset_within_surface g' R HW HH) as (A & B & C & D & F).
    split; [split; assumption|]. split; [exact C|]. split; [exact D|exact F].
Qed.

(** At 800 by 600 with every draw one half, a particle whose age passes its
    [maxLife] comes back at [(400, 300)], the middle of the surface. *)
Example respawn_in_the_middle :
  let p := fst (Particle.update 800 600 Sample.worn Sample.halves) in
  Particle.x p == 400 /\ Particle.y p == 300.
Proof. cbv zeta. split; vm_compute; reflexivity. Qed.

(** On a surface without height the same particle comes back at [y = 0],
    which is then the top and the bottom edge at once. *)
Example respawn_on_flat_surface :
  let p := fst (Particle.update 800 0 Sample.worn Sample.halves) in
  Particle.x p == 400 /\ Particle.y p == 0.
Proof. cbv zeta. split; vm_compute; reflexivity. Qed.

(** The particle of the example is not put back on the bottom edge. *)
Lemma respawn_not_at_bottom_edge :
  ~ respawns_at_bottom_edge 800 600 Sample.worn Sample.halves.
Proof.
  unfold respawns_at_bottom_edge. intros C.
  assert (E : (Particle.life Sample.worn + $1 >? Particle.maxLife Sample.worn)%js = true)
    by (vm_compute; reflexivity).
  specialize (C E). vm_compute in C. discriminate.
Qed.

Lemma particle_respawn_in_place_witness :
  (Particle.life Sample.worn + $1 >? Particle.maxLife Sample.worn)%js = true
  /\ Particle.life (fst (Particle.update 800 600 Sample.worn Sample.halves)) = 0
  /\ (Particle.y (fst (Particle.reset 800 600 Sample.halves)) < inject_Z 600)%Q
  /\ (Particle.y (fst (Particle.reset 800 0 Sample.halves)) == 0)%Q.
Proof.
  split; [vm_compute; reflexivity|].
  assert (R : forall i, (0 <= stream Sample.halves i < 1)%Q)
    by (intros i; cbn; split; [discriminate|reflexivity]).
  destruct (@particle_respawn_in_place Q exact Sample.mathQ 800 600
              Sample.worn Sample.halves) as (U & _ & P).
  - vm_compute. reflexivity.
  - split; [cbv zeta in U; rewrite U; reflexivity|]. split.
    + destruct (P 800%Z 600%Z Sample.halves R) as (_ & _ & D & _); [lia|lia|].
      apply D. lia.
    + destruct (P 800%Z 0%Z Sample.halves R) as (_ & _ & _ & F); [lia|lia|].
      apply F. reflexivity.
Defined.

(** ** The life of a particle, in exact arithmetic *)

Section ParticleLife.
Local Open Scope Q_scope.
Import Particle.

Lemma moves_fields (j : nat) (p : t Q) :
  let q := Nat.iter j move p in
  vy q = vy p /\ maxLife q = maxLife p
  /\ life q == life p + inject_Z (Z.of_nat j)
  /\ y q == y p + inject_Z (Z.of_nat j) * vy p.
Proof.
  induction j as [|j IH]; cbn zeta.
  - cbn. repeat split; ring.
  - destruct IH as (V & L & A & B).
    change (Nat.iter (S j) move p) with (move (Nat.iter j move p)).
    cbn [move vy maxLife life y]. rewrite V, L.
    repeat split.
    + cbn [add exact lit of_Z]. rewrite A, Nat2Z.inj_succ.
      unfold Z.succ. rewrite inject_Z_plus. ring.
    + cbn [add exact]. rewrite B, Nat2Z.inj_succ.
      unfold Z.succ. rewrite inject_Z_plus. ring.
Qed.

(** A particle of age 0 whose [maxLife] is at least [k] frames, and whose
    way up stays below the line [y = -10] for [k] frames, is only moved by
    the first [k] calls, and is [k] frames old after them. *)
Lemma young_particle_is_moved (W H : Z) (p : t Q) (g : Rng Q) (k : nat) :
  life p == 0 ->
  inject_Z (Z.of_nat k) <= maxLife p ->
  (forall j, (1 <= j <= k)%nat -> - (10) <= y p + inject_Z (Z.of_nat j) * vy p) ->
  updates k W H p g = (Nat.iter k move p, g)
  /\ life (Nat.iter k move p) == inject_Z (Z.of_nat k).
Proof.
  intros L0 Lk Y. split.
  - apply updates_move. intros j Hj.
    destruct (moves_fields (S j) p) as (V & ML & A & B).
    change (Nat.iter (S j) move p) with (move (Nat.iter j move p)) in *.
    split.
    + cbn [ltb exact]. apply negb_false_iff, Qle_bool_iff.
      rewrite ML, A, L0. apply Qle_trans with (inject_Z (Z.of_nat k)); [|exact Lk].
      rewrite Qplus_0_l. rewrite <- Zle_Qle. lia.
    + cbn [ltb exact opp lit of_Z]. apply negb_false_iff, Qle_bool_iff.
      rewrite B. apply Y. lia.
  - destruct (moves_fields k p) as (_ & _ & A & _). rewrite A, L0. ring.
Qed.

(** The call after [maxLife] frames is the one that reinitialises it. *)
Lemma old_particle_is_reset (W H : Z) (p : t Q) (g : Rng Q) (k : nat) :
  life p == 0 ->
  maxLife p < inject_Z (Z.of_nat (S k)) ->
  update W H (Nat.iter k move p) g = reset W H g.
Proof.
  intros L0 Lk. rewrite update_cases.
  destruct (moves_fields (S k) p) as (_ & ML & A & _).
  change (Nat.iter (S k) move p) with (move (Nat.iter k move p)) in *.
  replace (life (move (Nat.iter k move p)) >? maxLife (move (Nat.iter k move p)))%js
    with true; [reflexivity|].
  symmetry. cbn [ltb exact]. apply negb_true_iff.
  destruct (Qle_bool _ _) eqn:E; [|reflexivity].
  apply Qle_bool_iff in E. rewrite ML, A, L0, Qplus_0_l in E.
  exfalso. apply (Qlt_irrefl (maxLife p)).
  eapply Qlt_le_trans; [exact Lk|exact E].
Qed.

End ParticleLife.

(** On doubles: the first particle the sample generator makes at 800 by 600
    has [maxLife = 333.8]; 333 calls only move it, the 334th reinitialises
    it. *)
Example particle_lives_its_maxLife :
  let p0 := fst (Particle.reset 800 600 Sample.generator) in
  let after k := Particle.updates k 800 600 p0 Sample.generator in
  PrimFloat.ltb (float_of_Z 333) (Particle.maxLife p0) = true
  /\ PrimFloat.ltb (Particle.maxLife p0) (float_of_Z 334) = true
  /\ drawn (snd (after 333%nat)) = 0%nat
  /\ Particle.life (fst (after 333%nat)) = float_of_Z 333
  /\ drawn (snd (after 334%nat)) = 8%nat
  /\ Particle.life (fst (after 334%nat)) = float_of_Z 0.
Proof. vm_compute. repeat split. Qed.

(** ** Gold streaks *)

Section StreakFacts.
Context {num : Type} {N : JSNumber num}.
Local Open Scope js_scope.
Import GoldLine.

Lemma reset_trail (W H : Z) (g : Rng num) : trail (fst (reset W H g)) = [].
Proof. reflexivity. Qed.

Lemma create_trail (W H : Z) (g : Rng num) : trail (fst (create W H g)) = [].
Proof. reflexivity. Qed.

(** [push] adds one point at the end. *)
Lemma advance_trail (s : t num) :
  exists pt, trail (advance s) = trail s ++ [pt].
Proof. unfold advance. cbn. eexists. reflexivity. Qed.

Lemma advance_length (s : t num) :
  List.length (trail (advance s)) = S (List.length (trail s)).
Proof.
  destruct (advance_trail s) as (pt & E). rewrite E, length_app. cbn. lia.
Qed.

Lemma cap_progress (s : t num) : progress (cap s) = progress s.
Proof. unfold cap. destruct (_ <? _)%nat; reflexivity. Qed.

(** [shift] is called when, and only when, the trail is longer than 60. *)
Lemma cap_long (s : t num) :
  (60 < List.length (trail s))%nat -> trail (cap s) = tl (trail s).
Proof.
  intros L. unfold cap. apply Nat.ltb_lt in L. rewrite L. reflexivity.
Qed.

Lemma cap_short (s : t num) :
  (List.length (trail s) <= 60)%nat -> cap s = s.
Proof.
  intros L. unfold cap.
  destruct (Nat.ltb_spec 60 (List.length (trail s))); [lia|reflexivity].
Qed.

Lemma cap_length (s : t num) :
  (List.length (trail s) <= 61)%nat -> (List.length (trail (cap s)) <= 60)%nat.
Proof.
  intros L. destruct (Nat.le_gt_cases (List.length (trail s)) 60) as [A|A].
  - rewrite cap_short; assumption.
  - rewrite cap_long by exact A. destruct (trail s); cbn in *; lia.
Qed.

Lemma streak_update_cases (W H : Z) (s : t num) (g : Rng num) :
  update W H s g
  = if progress (advance s) >=? $1 then reset W H g else (cap (advance s), g).
Proof.
  unfold update. rewrite cap_progress.
  destruct (progress (advance s) >=? $1); reflexivity.
Qed.

Lemma streak_update_trail (W H : Z) (s : t num) (g : Rng num) :
  trail (fst (update W H s g))
  = if progress (advance s) >=? $1 then [] else trail (cap (advance s)).
Proof.
  rewrite streak_update_cases. destruct (progress (advance s) >=? $1); reflexivity.
Qed.

Lemma reachable_trail_length (s : t num) :
  streak_reachable s -> (List.length (trail s) <= 60)%nat.
Proof.
  induction 1 as [W H g|W H g s R IH].
  - rewrite create_trail. cbn. lia.
  - rewrite streak_update_trail. destruct (progress (advance s) >=? $1); [cbn; lia|].
    apply cap_length. rewrite advance_length. lia.
Qed.

(** Calls of [update()], one per frame, keep a streak among those the
    engine can hold. *)
Lemma updates_reachable (dims : list (Z * Z)) (s : t num) (g : Rng num) :
  streak_reachable s -> streak_reachable (fst (updates dims s g)).
Proof.
  revert s g. induction dims as [|[W H] dims IH]; intros s g R; [exact R|].
  cbn [updates]. rewrite bind_eq. apply IH. apply streak_updated. exact R.
Qed.

End StreakFacts.

(** C6: a streak the engine holds never has more than 60 points in its trail
    once a call of [update] is over.  In that call the new point is pushed
    at the end; the oldest point is shifted out if the trail is then longer
    than 60 points, and the trail is left as pushed if it is not. *)
Theorem streak_trail_capped
  {num : Type} {N : JSNumber num} (s : GoldLine.t num) :
  streak_reachable s ->
  (List.length (GoldLine.trail s) <= 60)%nat
  /\ (exists pt, GoldLine.trail (GoldLine.advance s) = GoldLine.trail s ++ [pt])
  /\ ((60 < List.length (GoldLine.trail (GoldLine.advance s)))%nat ->
      exists oldest,
        hd_error (GoldLine.trail s) = Some oldest
        /\ GoldLine.trail (GoldLine.advance s)
           = oldest :: GoldLine.trail (GoldLine.cap (GoldLine.advance s)))
  /\ ((List.length (GoldLine.trail (GoldLine.advance s)) <= 60)%nat ->
      GoldLine.trail (GoldLine.cap (GoldLine.advance s))
      = GoldLine.trail (GoldLine.advance s))
  /\ (forall (W H : Z) (g : Rng num),
        GoldLine.trail (fst (GoldLine.update W H s g))
        = (if (GoldLine.progress (GoldLine.advance s) >=? $1)%js then []
           else GoldLine.trail (GoldLine.cap (GoldLine.advance s)))
        /\ (List.length (GoldLine.trail (fst (GoldLine.update W H s g))) <= 60)%nat).
Proof.
  intros R. pose proof (reachable_trail_length R) as L.
  split; [exact L|]. split; [apply advance_trail|]. split; [|split].
  - intros A. rewrite cap_long by exact A.
    destruct (advance_trail s) as (pt & E). rewrite E.
    rewrite advance_length in A.
    destruct (GoldLine.trail s) as [|oldest l]; [cbn in A; lia|].
    exists oldest. split; reflexivity.
  - intros A. rewrite cap_short by exact A. reflexivity.
  - intros W H g. split; [apply streak_update_trail|].
    apply reachable_trail_length. apply streak_updated. exact R.
Qed.

(** The sample streak sixty calls after it was made: it holds sixty points,
    so the next point makes sixty-one and the oldest one is shifted out. *)
Lemma streak_trail_capped_witness :
  let s0 := fst (GoldLine.create 800 600 Sample.generator) in
  let s60 := fst (GoldLine.updates (repeat (800, 600)%Z 60) s0 Sample.generator) in
  streak_reachable s60
  /\ (60 < List.length (GoldLine.trail (GoldLine.advance s60)))%nat
  /\ (List.length (GoldLine.trail s60) <= 60)%nat
  /\ (exists oldest,
        hd_error (GoldLine.trail s60) = Some oldest
        /\ GoldLine.trail (GoldLine.advance s60)
           = oldest :: GoldLine.trail (GoldLine.cap (GoldLine.advance s60)))
  /\ (List.length
        (GoldLine.trail (fst (GoldLine.update 800 600 s60 Sample.generator))) <= 60)%nat.
Proof.
  cbv zeta.
  set (s60 := fst (GoldLine.updates (repeat (800, 600)%Z 60)
                     (fst (GoldLine.create 800 600 Sample.generator))
                     Sample.generator)).
  assert (R : streak_reachable s60).
  { apply updates_reachable. apply streak_created. }
  assert (A : (60 < List.length (GoldLine.trail (GoldLine.advance s60)))%nat).
  { apply Nat.ltb_lt. vm_compute. reflexivity. }
  destruct (@streak_trail_capped float binary64 s60 R) as (L & _ & Ev & _ & U).
  split; [exact R|]. split; [exact A|]. split; [exact L|].
  split; [exact (Ev A)|]. exact (proj2 (U 800%Z 600%Z Sample.generator)).
Defined.

(** On doubles: sixty calls after it was made the sample streak has sixty
    points; the next call pushes one more and drops the first. *)
Example streak_evicts_oldest :
  let s0 := fst (GoldLine.create 800 600 Sample.generator) in
  let s60 := fst (GoldLine.updates (repeat (800, 600)%Z 60) s0 Sample.generator) in
  let s61 := fst (GoldLine.update 800 600 s60 Sample.generator) in
  List.length (GoldLine.trail s60) = 60%nat
  /\ List.length (GoldLine.trail s61) = 60%nat
  /\ hd_error (GoldLine.trail s61) = nth_error (GoldLine.trail s60) 1.
Proof. vm_compute. repeat split. Qed.

(** ** The network of the first scene *)

Section NetworkFacts.
Context {num : Type} {N : JSNumber num} {M : JSMath num}.
Local Open Scope js_scope.

Lemma In_combine_seq {A} (l : list A) (k : nat) (i : Z) (x : A) :
  In (i, x) (combine (map Z.of_nat (seq k (List.length l))) l)
  <-> exists j, i = Z.of_nat (k + j) /\ nth_error l j = Some x.
Proof.
  revert k. induction l as [|a l IH]; intros k; cbn [List.length seq map combine In].
  - split; [tauto|]. intros (j & _ & E). destruct j; discriminate.
  - rewrite IH. split.
    + intros [E|(j & E1 & E2)].
      * injection E as <- <-. exists 0%nat. rewrite Nat.add_0_r. split; reflexivity.
      * exists (S j). split; [rewrite E1; f_equal; lia|exact E2].
    + intros ([|j] & E1 & E2).
      * left. cbn in E2. injection E2 as ->. rewrite Nat.add_0_r in E1. congruence.
      * right. exists j. split; [rewrite E1; f_equal; lia|exact E2].
Qed.

Lemma In_indexed {A} (l : list A) (i : Z) (x : A) :
  In (i, x) (indexed l) <-> exists j, i = Z.of_nat j /\ nth_error l j = Some x.
Proof.
  unfold indexed, upto. rewrite Nat2Z.id. apply (In_combine_seq l 0).
Qed.

(** The lines among the edges: one for each pair of nodes, the first before
    the second in the array, that [hypot] puts closer than the threshold. *)
Lemma In_edges (W : Z) (alpha : num) (nodes : list (num * num)) (x1 y1 x2 y2 : num) :
  In (line x1 y1 x2 y2) (edges W alpha nodes)
  <-> exists (i j : nat) (n m : num * num),
        (i < j)%nat /\ nth_error nodes i = Some n /\ nth_error nodes j = Some m
        /\ (hypot (fst n - fst m) (snd n - snd m) <? of_Z W * $0.35) = true
        /\ line x1 y1 x2 y2 = line (fst n) (snd n) (fst m) (snd m).
Proof.
  unfold edges. rewrite in_flat_map. split.
  - intros ([i n] & I1 & I2). rewrite in_flat_map in I2.
    destruct I2 as ([j m] & J1 & J2).
    apply In_indexed in I1. destruct I1 as (i' & -> & Ei).
    apply In_indexed in J1. destruct J1 as (j' & -> & Ej).
    destruct (Z.leb_spec (Z.of_nat j') (Z.of_nat i')) as [L|L]; [destruct J2|].
    unfold edge in J2.
    destruct (hypot (fst n - fst m) (snd n - snd m) <? of_Z W * $0.35) eqn:D;
      [|destruct J2].
    destruct J2 as [J2|[J2|[]]]; [discriminate|].
    exists i', j', n, m. repeat split; try assumption; try lia. congruence.
  - intros (i & j & n & m & L & Ei & Ej & D & E).
    exists (Z.of_nat i, n). split; [apply In_indexed; eauto|].
    rewrite in_flat_map. exists (Z.of_nat j, m). split; [apply In_indexed; eauto|].
    destruct (Z.leb_spec (Z.of_nat j) (Z.of_nat i)) as [L'|L']; [lia|].
    unfold edge. rewrite D. right. left. congruence.
Qed.

Lemma nth_error_nodes (W H t : Z) (n : Z) (j : nat) :
  nth_error (map (node W H t) (upto n)) j
  = if (j <? Z.to_nat n)%nat then Some (node W H t (Z.of_nat j)) else None.
Proof.
  unfold upto. rewrite !nth_error_map.
  destruct (Nat.ltb_spec j (Z.to_nat n)) as [L|L].
  - rewrite nth_error_seq. apply Nat.ltb_lt in L. rewrite L. reflexivity.
  - rewrite (proj2 (nth_error_None _ _)); [reflexivity|]. rewrite length_seq. exact L.
Qed.

(** Only the edges are lines in what [drawNetwork] paints. *)
Lemma In_drawNetwork (W H : Z) (alpha : num) (t : Z) (x1 y1 x2 y2 : num) :
  In (line x1 y1 x2 y2) (drawNetwork W H alpha t)
  <-> In (line x1 y1 x2 y2) (edges W alpha (map (node W H t) (upto 12))).
Proof.
  unfold drawNetwork. cbn zeta. rewrite !in_app_iff. split.
  - intros [A|[A|[A|A]]]; [destruct A as [A|[]]; discriminate|exact A| |
                           destruct A as [A|[]]; discriminate].
    apply in_flat_map in A. destruct A as ([i n] & _ & A).
    destruct A as [A|[A|[]]]; discriminate.
  - intros A. right. left. exact A.
Qed.

End NetworkFacts.

Section EdgeOpacity.
Local Open Scope Q_scope.

(** [edgeAlpha] on rationals, with the threshold [T = 0.35 W]. *)
Lemma edgeAlpha_exact (W : Z) (alpha d : Q) :
  edgeAlpha W alpha d = alpha * 0.15 * (1 - d / (inject_Z W * 0.35)).
Proof. reflexivity. Qed.

Lemma threshold_pos (W : Z) : (0 < W)%Z -> 0 < inject_Z W * 0.35.
Proof.
  intros HW. assert (0 < inject_Z W) by (unfold Qlt; cbn; lia).
  apply Qmult_lt_0_compat; [assumption|reflexivity].
Qed.

Lemma edgeAlpha_scaled (W : Z) (alpha d : Q) :
  (0 < W)%Z ->
  edgeAlpha W alpha d
  == alpha * 0.15 / (inject_Z W * 0.35) * (inject_Z W * 0.35 - d).
Proof.
  intros HW. pose proof (threshold_pos HW) as T.
  rewrite edgeAlpha_exact. field. intros E. rewrite E in T. discriminate.
Qed.

Lemma edgeAlpha_decreasing (W : Z) (alpha d1 d2 : Q) :
  (0 < W)%Z -> 0 < alpha -> d1 < d2 ->
  edgeAlpha W alpha d2 < edgeAlpha W alpha d1.
Proof.
  intros HW Ha Hd. pose proof (threshold_pos HW) as T.
  rewrite !(edgeAlpha_scaled _ _ HW).
  set (c := alpha * 0.15 / (inject_Z W * 0.35)).
  assert (C : 0 < c).
  { unfold c. apply Qlt_shift_div_l; [exact T|]. rewrite Qmult_0_l.
    apply Qmult_lt_0_compat; [exact Ha|reflexivity]. }
  apply Qmult_lt_l; [exact C|]. lra.
Qed.

Lemma edgeAlpha_at_threshold (W : Z) (alpha : Q) :
  (0 < W)%Z -> edgeAlpha W alpha (inject_Z W * 0.35) == 0.
Proof. intros HW. rewrite (edgeAlpha_scaled _ _ HW). ring. Qed.

Lemma edgeAlpha_vanishes (W : Z) (alpha eps : Q) :
  (0 < W)%Z -> 0 < alpha -> 0 < eps ->
  exists delta, 0 < delta /\
    forall d, inject_Z W * 0.35 - delta < d < inject_Z W * 0.35 ->
              0 < edgeAlpha W alpha d < eps.
Proof.
  intros HW Ha He. pose proof (threshold_pos HW) as T.
  set (c := alpha * 0.15 / (inject_Z W * 0.35)).
  assert (C : 0 < c).
  { unfold c. apply Qlt_shift_div_l; [exact T|]. rewrite Qmult_0_l.
    apply Qmult_lt_0_compat; [exact Ha|reflexivity]. }
  exists (eps / c). split.
  - apply Qlt_shift_div_l; [exact C|]. rewrite Qmult_0_l. exact He.
  - intros d [D1 D2]. rewrite (edgeAlpha_scaled _ _ HW). fold c. split.
    + apply Qmult_lt_0_compat; [exact C|lra].
    + apply Qlt_le_trans with (c * (eps / c)).
      * apply Qmult_lt_l; [exact C|]. lra.
      * assert (E : c * (eps / c) == eps)
          by (field; intros E; rewrite E in C; discriminate).
        rewrite E. apply Qle_refl.
Qed.

End EdgeOpacity.

(** C7: what [drawNetwork] strokes is one line for each pair of distinct
    nodes whose distance [d], as [Math.hypot] gives it, is strictly below the
    threshold [0.35 W], and nothing for the other pairs.  The line is painted
    with opacity [alpha * 0.15 * (1 - d / (0.35 W))]: in exact arithmetic,
    on a surface that is not empty and for the positive [alpha] the scene
    passes, the opacity decreases strictly as [d] grows, is zero at the
    threshold and is as small as one likes close enough below it. *)
Theorem network_edge_iff_close
  {num : Type} {N : JSNumber num} {M : JSMath num} (W H : Z) (alpha : num) (t : Z) :
  (forall x1 y1 x2 y2 : num,
     In (line x1 y1 x2 y2) (drawNetwork W H alpha t)
     <-> exists i j : nat,
           (i < j < 12)%nat
           /\ let n := node W H t (Z.of_nat i) in
              let m := node W H t (Z.of_nat j) in
              (hypot (fst n - fst m) (snd n - snd m) <? of_Z W * $0.35)%js = true
              /\ line x1 y1 x2 y2 = line (fst n) (snd n) (fst m) (snd m))
  /\ (forall n m : num * num,
        let d := hypot (fst n - fst m)%js (snd n - snd m)%js in
        edge W alpha n m
        = if (d <? of_Z W * $0.35)%js
          then [globalAlpha (alpha * $0.15 * ($1 - d / (of_Z W * $0.35)))%js;
                line (fst n) (snd n) (fst m) (snd m)]
          else [])
  /\ (forall (a d1 d2 : Q),
        (0 < W)%Z -> 0 < a -> d1 < d2 -> edgeAlpha W a d2 < edgeAlpha W a d1)
  /\ (forall a : Q, (0 < W)%Z -> 0 < a ->
        edgeAlpha W a (inject_Z W * 0.35) == 0
        /\ forall eps, 0 < eps ->
             exists delta, 0 < delta /\
               forall d, inject_Z W * 0.35 - delta < d < inject_Z W * 0.35 ->
                         0 < edgeAlpha W a d < eps).
Proof.
  split; [|split; [|split]].
  - intros x1 y1 x2 y2. rewrite In_drawNetwork, In_edges. split.
    + intros (i & j & n & m & L & Ei & Ej & D & E).
      rewrite nth_error_nodes in Ei, Ej.
      destruct (Nat.ltb_spec i (Z.to_nat 12)) as [Li|Li]; [|discriminate].
      destruct (Nat.ltb_spec j (Z.to_nat 12)) as [Lj|Lj]; [|discriminate].
      injection Ei as <-. injection Ej as <-.
      exists i, j. split; [split; [exact L|exact Lj]|]. split; assumption.
    + intros (i & j & [L Lj] & D & E).
      exists i, j, (node W H t (Z.of_nat i)), (node W H t (Z.of_nat j)).
      rewrite !nth_error_nodes.
      destruct (Nat.ltb_spec i (Z.to_nat 12)) as [Li|Li];
        [|change (Z.to_nat 12) with 12%nat in Li; lia].
      destruct (Nat.ltb_spec j (Z.to_nat 12)) as [Lj'|Lj'];
        [|change (Z.to_nat 12) with 12%nat in Lj'; lia].
      repeat split; assumption.
  - intros n m d. reflexivity.
  - intros a d1 d2. apply edgeAlpha_decreasing.
  - intros a HW Ha. split; [apply edgeAlpha_at_threshold; exact HW|].
    intros eps He. apply edgeAlpha_vanishes; assumption.
Qed.

(** ** The skyline of the first scene *)

(** C8: whether a window is lit is computed from the building, the row and
    the column alone.  The rectangle of a window is painted exactly when
    [windowLit] says so, whatever the geometry it is painted with; the
    skyline painted does not depend on the time it is given; and each frame
    of the first scene paints the skyline of time 0 at opacity 0.9, whatever
    the generator, the pools and the clock are. *)
Theorem skyline_lit_is_pure {num : Type} {N : JSNumber num} {M : JSMath num} :
  (forall (W H : Z) (alpha : num) (t t' : Z),
     drawSkyline W H alpha t = drawSkyline W H alpha t')
  /\ (forall (bx by' bw bh : num) (wCols wRows : Z) (ww wh : num)
             (bx2 by2 bw2 bh2 : num) (wCols2 wRows2 : Z) (ww2 wh2 : num)
             (b : Building.t) (row col : Z),
        (drawWindow bx by' bw bh wCols wRows ww wh b row col <> []
         <-> windowLit b row col = true)
        /\ (drawWindow bx by' bw bh wCols wRows ww wh b row col = []
            <-> drawWindow bx2 by2 bw2 bh2 wCols2 wRows2 ww2 wh2 b row col = []))
  /\ (forall (e e' : Engine num) (h h' : Host num),
        loop e h = Normal (e', h') ->
        sceneIndex (tick e) = 0%Z ->
        exists l,
          canvas_log h'
          = canvas_log h
            ++ [clearRect $0 $0 (of_Z (W e)) (of_Z (H e)); save;
                globalAlpha (sceneAlpha (sceneTime (tick e)));
                fillRect $0 $0 (of_Z (W e)) (of_Z (H e))]%js
            ++ drawSkyline (W e) (H e) ($0.9)%js 0 ++ l).
Proof.
  split; [|split].
  - intros W H alpha t t'. reflexivity.
  - intros. unfold drawWindow. destruct (windowLit b row col); split; split;
      try discriminate; try reflexivity; try congruence.
  - intros e e' h h' L I.
    destruct (loop_page _ _ L) as (_ & _ & _ & _ & _ & _ & (scene & l & Sc & P) & _).
    rewrite I in Sc. injection Sc as <-.
    rewrite P. unfold sceneVision. eexists.
    rewrite <- !app_assoc. cbn [app]. reflexivity.
Qed.

(** ** Resizing *)

Section Resize.
Context {num : Type} {N : JSNumber num} {M : JSMath num}.

Lemma tick_scene_range (e : Engine num) :
  (0 <= sceneIndex e < 5)%Z -> (0 <= sceneIndex (tick e) < 5)%Z.
Proof.
  intros R. unfold tick. destruct (_ >=? _)%Z; cbn; [|exact R].
  apply Z.rem_bound_pos; lia.
Qed.

(** From a clock whose scene exists, any number of frames runs to its end,
    and the size of the surface is not touched. *)
Lemma frames_normal (n : nat) (e : Engine num) (h : Host num) :
  (0 <= sceneIndex e < 5)%Z ->
  exists e' h', frames n e h = Normal (e', h')
    /\ (0 <= sceneIndex e' < 5)%Z /\ W e' = W e /\ H e' = H e.
Proof.
  intros R. induction n as [|n IH].
  - exists e, h. repeat split; lia.
  - destruct IH as (e1 & h1 & F & R1 & W1 & H1).
    destruct (@loop_normal num N M e1 h1 (@tick_scene_range e1 R1)) as [[e2 h2] L].
    destruct (loop_engine _ _ L) as (I2 & _ & _ & W2 & H2).
    exists e2, h2. cbn [frames]. rewrite F. split; [exact L|].
    rewrite I2. split; [apply tick_scene_range; exact R1|]. split; congruence.
Qed.

End Resize.

(** C9: a resize of the window between two frames, once the engine runs,
    writes the new size in [W], [H] and in the canvas, and nothing else: the
    pools, the clock, the generator, what was painted, the listeners and the
    requested frames are as they were.  Every frame after it runs to its end
    and clears the surface at the new size. *)
Theorem resize_between_frames
  {num : Type} {N : JSNumber num} {M : JSMath num}
  (e : Engine num) (h : Host num) (box : option (Z * Z)) (iw ih : Z) :
  resizeListeners h <> 0%nat ->
  (0 <= sceneIndex e < 5)%Z ->
  let w := match box with Some b => fst b | None => iw end in
  let h0 := match box with Some b => snd b | None => ih end in
  exists e1 h1,
    windowResized box iw ih (Some e, h) = (Some e1, h1)
    /\ W e1 = w /\ H e1 = h0 /\ hero_canvas h1 = Some (w, h0)
    /\ particles e1 = particles e /\ goldLines e1 = goldLines e
    /\ shapes e1 = shapes e
    /\ sceneIndex e1 = sceneIndex e /\ sceneTime e1 = sceneTime e
    /\ animT e1 = animT e
    /\ rng h1 = rng h /\ canvas_log h1 = canvas_log h
    /\ resizeListeners h1 = resizeListeners h
    /\ animationFrames h1 = animationFrames h
    /\ forall n : nat, exists e2 h2 e3 h3 l,
         frames n e1 h1 = Normal (e2, h2)
         /\ W e2 = w /\ H e2 = h0
         /\ loop e2 h2 = Normal (e3, h3)
         /\ W e3 = w /\ H e3 = h0
         /\ canvas_log h3
            = canvas_log h2 ++ clearRect ($0)%js ($0)%js (of_Z w) (of_Z h0) :: l.
Proof.
  intros L R w h0. unfold windowResized. cbn [resizeListeners].
  destruct (resizeListeners h) as [|k] eqn:K; [congruence|].
  unfold resize. cbn [accueil innerWidth innerHeight]. fold w h0.
  eexists _, _. split; [reflexivity|]. cbn.
  repeat (split; [reflexivity || exact K|]).
  intros n.
  destruct (@frames_normal num N M n (set_size e w h0)
              (set_canvas
                 {| hero_canvas := hero_canvas h; accueil := box; innerWidth := iw;
                    innerHeight := ih; resizeListeners := resizeListeners h;
                    animationFrames := animationFrames h; rng := rng h;
                    canvas_log := canvas_log h |} (Some (w, h0))) R)
    as (e2 & h2 & F & R2 & W2 & H2).
  destruct (@loop_normal num N M e2 h2 (@tick_scene_range num N M e2 R2)) as [[e3 h3] L3].
  destruct (loop_engine _ _ L3) as (_ & _ & _ & W3 & H3).
  destruct (loop_page _ _ L3) as (_ & _ & _ & _ & _ & _ & (scene & l & _ & P) & _).
  cbn in W2, H2.
  exists e2, h2, e3, h3. eexists.
  rewrite K in F. split; [exact F|].
  split; [exact W2|]. split; [exact H2|]. split; [exact L3|].
  split; [congruence|]. split; [congruence|].
  rewrite P, W2, H2. cbn [app]. reflexivity.
Qed.

(** The hero section shrinks to 640 by 400 while the sample engine runs. *)
Lemma resize_between_frames_witness :
  resizeListeners Sample.running_page <> 0%nat
  /\ (0 <= sceneIndex Sample.engine < 5)%Z
  /\ exists e1 h1,
       windowResized (Some (640, 400)%Z) 1024 768
                     (Some Sample.engine, Sample.running_page) = (Some e1, h1)
       /\ W e1 = 640%Z /\ H e1 = 400%Z
       /\ particles e1 = particles Sample.engine.
Proof.
  split; [discriminate|]. split; [cbn; lia|].
  destruct (@resize_between_frames float binary64 Sample.math Sample.engine
              Sample.running_page (Some (640, 400)%Z) 1024 768)
    as (e1 & h1 & E & HW & HH & _ & P & _).
  - discriminate.
  - cbn; lia.
  - exists e1, h1. repeat split; assumption.
Defined.

(** * The rest of the script *)

(** ** Regular expressions: [test] decides the words of an expression *)

Section Regex.

Lemma matches_seq_inv (r1 r2 : regex) (s : jsstring) :
  matches (Seq r1 r2) s ->
  exists s1 s2, s = s1 ++ s2 /\ matches r1 s1 /\ matches r2 s2.
Proof. intros M. inversion M; subst. eauto. Qed.

Lemma matches_class_inv (p : N -> bool) (s : jsstring) :
  matches (Class p) s -> exists c, s = [c] /\ p c = true.
Proof. intros M. inversion M; subst. eauto. Qed.

Lemma matches_alt_inv (r1 r2 : regex) (s : jsstring) :
  matches (Alt r1 r2) s -> matches r1 s \/ matches r2 s.
Proof. intros M. inversion M; subst; auto. Qed.

Lemma nullable_matches (r : regex) : nullable r = true <-> matches r [].
Proof.
  induction r as [| |p|r1 IH1 r2 IH2|r1 IH1 r2 IH2|r IH]; cbn.
  - split; [discriminate|]. intros M. inversion M.
  - split; [constructor|reflexivity].
  - split; [discriminate|]. intros M. inversion M.
  - rewrite andb_true_iff, IH1, IH2. split.
    + intros [A B]. exact (m_seq A B).
    + intros M. destruct (matches_seq_inv M) as (s1 & s2 & E & A & B).
      symmetry in E. apply app_eq_nil in E. destruct E as [-> ->]. split; assumption.
  - rewrite orb_true_iff, IH1, IH2. split.
    + intros [A|B]; [apply m_alt_l|apply m_alt_r]; assumption.
    + apply matches_alt_inv.
  - split; [constructor|reflexivity].
Qed.

(** A repetition that starts with [c] starts with a word of [r] that starts
    with [c]. *)
Lemma star_cons (r : regex) (c : N) (s : jsstring) :
  matches (Star r) (c :: s) ->
  exists s1 s2, s = s1 ++ s2 /\ matches r (c :: s1) /\ matches (Star r) s2.
Proof.
  intros M. remember (Star r) as r' eqn:Er. remember (c :: s) as w eqn:Ew.
  revert s Ew. induction M as [| | | | | |r0 s1 s2 M1 _ M2 IH2]; intros s' Ew;
    try discriminate.
  injection Er as ->. destruct s1 as [|c1 s1].
  - cbn in Ew. apply IH2; [reflexivity|exact Ew].
  - cbn in Ew. injection Ew as -> <-. exists s1, s2. repeat split; assumption.
Qed.

Lemma deriv_matches (r : regex) (c : N) (s : jsstring) :
  matches (deriv c r) s <-> matches r (c :: s).
Proof.
  revert s. induction r as [| |p|r1 IH1 r2 IH2|r1 IH1 r2 IH2|r IH]; intros s; cbn.
  - split; intros M; inversion M.
  - split; intros M; inversion M.
  - destruct (p c) eqn:P; split; intros M.
    + inversion M; subst. constructor. exact P.
    + destruct (matches_class_inv M) as (c' & E & _). injection E as E1 E2. subst.
      constructor.
    + inversion M.
    + destruct (matches_class_inv M) as (c' & E & P'). injection E as E1 E2. subst.
      congruence.
  - assert (F : matches (Seq (deriv c r1) r2) s
                -> matches (Seq r1 r2) (c :: s)).
    { intros M. destruct (matches_seq_inv M) as (s1 & s2 & -> & A & B).
      apply IH1 in A. exact (m_seq A B). }
    assert (G : matches (Seq r1 r2) (c :: s)
                -> matches (Seq (deriv c r1) r2) s
                   \/ (nullable r1 = true /\ matches (deriv c r2) s)).
    { intros M. destruct (matches_seq_inv M) as (s1 & s2 & E & A & B).
      destruct s1 as [|c1 s1].
      - right. cbn in E. subst s2. split; [apply nullable_matches; exact A|].
        apply IH2. exact B.
      - left. cbn in E. injection E as E1 E2. subst. apply IH1 in A.
        exact (m_seq A B). }
    destruct (nullable r1) eqn:Nl; split.
    + intros M. destruct (matches_alt_inv M) as [A|B]; [apply F; exact A|].
      apply nullable_matches in Nl. apply (m_seq (s1 := []) Nl). apply IH2. exact B.
    + intros M. destruct (G M) as [A|[_ B]]; [apply m_alt_l|apply m_alt_r]; assumption.
    + exact F.
    + intros M. destruct (G M) as [A|[A _]]; [exact A|discriminate].
  - split; intros M.
    + destruct (matches_alt_inv M) as [A|B];
        [apply m_alt_l, IH1; exact A|apply m_alt_r, IH2; exact B].
    + destruct (matches_alt_inv M) as [A|B];
        [apply m_alt_l, IH1; exact A|apply m_alt_r, IH2; exact B].
  - split.
    + intros M. destruct (matches_seq_inv M) as (s1 & s2 & -> & A & B).
      apply IH in A. exact (m_star_app A B).
    + intros M. destruct (star_cons M) as (s1 & s2 & -> & A & B).
      apply IH in A. exact (m_seq A B).
Qed.

Lemma test_matches (r : regex) (s : jsstring) : test r s = true <-> matches r s.
Proof.
  revert r. induction s as [|c s IH]; intros r; cbn.
  - apply nullable_matches.
  - rewrite IH. apply deriv_matches.
Qed.

(** The words of [[p]*] and of [[p]+]: the strings, not empty for the
    second, that have all their code units in the class. *)
Lemma matches_star_class (p : N -> bool) (s : jsstring) :
  matches (Star (Class p)) s <-> forallb p s = true.
Proof.
  split.
  - intros M. remember (Star (Class p)) as r eqn:Er.
    induction M as [| | | | | |r0 s1 s2 M1 _ M2 IH2]; try discriminate; [reflexivity|].
    injection Er as ->. destruct (matches_class_inv M1) as (c & -> & P). cbn.
    rewrite IH2 by reflexivity. rewrite P. reflexivity.
  - induction s as [|c s IH]; cbn; [constructor|].
    intros A. apply andb_true_iff in A. destruct A as [A B].
    apply (m_star_app (s1 := [c])); [constructor; exact A|apply IH; exact B].
Qed.

Lemma matches_plus_class (p : N -> bool) (s : jsstring) :
  matches (Plus (Class p)) s <-> s <> [] /\ forallb p s = true.
Proof.
  unfold Plus. split.
  - intros M. destruct (matches_seq_inv M) as (s1 & s2 & -> & A & B).
    destruct (matches_class_inv A) as (c & -> & P).
    apply matches_star_class in B. cbn.
    split; [discriminate|]. rewrite B, P. reflexivity.
  - intros [Ne A]. destruct s as [|c s]; [congruence|]. cbn in A.
    apply andb_true_iff in A. destruct A as [A B].
    apply (m_seq (s1 := [c])); [constructor; exact A|].
    apply matches_star_class. exact B.
Qed.

End Regex.

(** ** [sanitizeInput] *)

Section Sanitize.

Lemma sanitize_cons (c : N) (s : jsstring) :
  sanitizeInput (Some (c :: s)) = escaped c ++ sanitizeInput (Some s).
Proof. reflexivity. Qed.

Lemma special_cases (c : N) :
  special c = true ->
  c = N_of_ascii "&" \/ c = N_of_ascii "<" \/ c = N_of_ascii ">" \/ c = quote
  \/ c = N_of_ascii "'" \/ c = N_of_ascii "/".
Proof.
  unfold special. cbn [existsb]. rewrite !orb_true_iff, !N.eqb_eq.
  intros H. decompose [or] H; try discriminate; subst; auto 10.
Qed.

(** Every key of the class is a key of [map]: the callback never returns
    [undefined], and what it returns is an entity, from [&] to [;], without
    any code unit of the class after the [&]. *)
Lemma escaped_special (c : N) :
  special c = true ->
  exists body, escaped c = N_of_ascii "&" :: body
               /\ (3 <= List.length body)%nat
               /\ forallb (fun d => negb (special d)) body = true.
Proof.
  intros S. unfold escaped. rewrite S.
  destruct (special_cases c S) as [-> | [-> | [-> | [-> | [-> | ->]]]]];
    eexists; (split; [reflexivity|split; [cbn; lia|reflexivity]]).
Qed.

Lemma escaped_plain (c : N) : special c = false -> escaped c = [c].
Proof. intros S. unfold escaped. rewrite S. reflexivity. Qed.

Lemma sanitize_length (s : jsstring) :
  (List.length s + 3 * List.length (filter special s)
   <= List.length (sanitizeInput (Some s)))%nat.
Proof.
  induction s as [|c s IH]; [cbn; lia|].
  rewrite sanitize_cons, length_app. cbn [filter List.length].
  destruct (special c) eqn:S.
  - destruct (escaped_special c S) as (body & -> & L & _). cbn [List.length]. lia.
  - rewrite (escaped_plain c S). cbn [List.length]. lia.
Qed.

Lemma sanitize_plain (s : jsstring) :
  forallb (fun c => negb (special c)) s = true -> sanitizeInput (Some s) = s.
Proof.
  induction s as [|c s IH]; [reflexivity|]. cbn [forallb].
  intros A. apply andb_true_iff in A. destruct A as [A B].
  apply negb_true_iff in A.
  rewrite sanitize_cons, (escaped_plain c A), IH by exact B. reflexivity.
Qed.

Lemma filter_special_nil (s : jsstring) :
  filter special s = [] <-> forallb (fun c => negb (special c)) s = true.
Proof.
  induction s as [|c s IH]; cbn [filter forallb]; [tauto|].
  destruct (special c); cbn [negb andb]; [split; discriminate|exact IH].
Qed.

(** The ampersands of the output stand where a code unit of the class
    stood: there are as many code units of the class in the output as in
    the input. *)
Lemma sanitize_specials (s : jsstring) :
  List.length (filter special (sanitizeInput (Some s)))
  = List.length (filter special s).
Proof.
  induction s as [|c s IH]; [reflexivity|].
  rewrite sanitize_cons, filter_app, length_app, IH. cbn [filter].
  destruct (special c) eqn:S.
  - destruct (escaped_special c S) as (body & -> & _ & B).
    cbn [filter]. change (special (N_of_ascii "&")) with true.
    assert (F : filter special body = []).
    { apply filter_special_nil. exact B. }
    rewrite F. reflexivity.
  - rewrite (escaped_plain c S). cbn [filter]. rewrite S. reflexivity.
Qed.

(** Two blocks that start two equal outputs are the blocks of the same code
    unit. *)
Lemma escaped_prefix (c1 c2 : N) (x y : jsstring) :
  escaped c1 ++ x = escaped c2 ++ y -> c1 = c2 /\ x = y.
Proof.
  destruct (special c1) eqn:S1; destruct (special c2) eqn:S2.
  - unfold escaped. rewrite S1, S2.
    destruct (special_cases c1 S1) as [-> | [-> | [-> | [-> | [-> | ->]]]]];
      destruct (special_cases c2 S2) as [-> | [-> | [-> | [-> | [-> | ->]]]]];
      cbn; intros E; try discriminate; injection E as ->; split; reflexivity.
  - destruct (escaped_special c1 S1) as (body & -> & _). rewrite (escaped_plain c2 S2).
    cbn. intros E. injection E as E _. subst c2. discriminate.
  - destruct (escaped_special c2 S2) as (body & -> & _). rewrite (escaped_plain c1 S1).
    cbn. intros E. injection E as E _. subst c1. discriminate.
  - rewrite (escaped_plain c1 S1), (escaped_plain c2 S2). cbn.
    intros E. injection E as -> ->. split; reflexivity.
Qed.

End Sanitize.

(** X1: whatever the input, the output of [sanitizeInput] holds no angle
    bracket, no double quote, no apostrophe and no slash. *)
Theorem sanitize_output_has_no_markup (input : option jsstring) (c : N) :
  In c (sanitizeInput input) ->
  c <> N_of_ascii "<" /\ c <> N_of_ascii ">" /\ c <> quote
  /\ c <> N_of_ascii "'" /\ c <> N_of_ascii "/".
Proof.
  destruct input as [s|]; [|intros []].
  induction s as [|d s IH]; [intros []|].
  rewrite sanitize_cons, in_app_iff. intros [A|A]; [|exact (IH A)].
  assert (P : special c = false \/ c = N_of_ascii "&").
  { destruct (special d) eqn:S.
    - destruct (escaped_special d S) as (body & E & _ & B). rewrite E in A.
      destruct A as [A|A]; [right; congruence|left].
      rewrite forallb_forall in B. apply negb_true_iff. exact (B c A).
    - rewrite (escaped_plain d S) in A. destruct A as [A|[]]. left. congruence. }
  destruct P as [P| ->]; [|repeat split; discriminate].
  repeat split; intros ->; discriminate.
Qed.

Lemma sanitize_output_has_no_markup_witness :
  In (N_of_ascii "&") (sanitizeInput (Some (js "<b>")))
  /\ (N_of_ascii "&" <> N_of_ascii "<" /\ N_of_ascii "&" <> N_of_ascii ">"
      /\ N_of_ascii "&" <> quote
      /\ N_of_ascii "&" <> N_of_ascii "'" /\ N_of_ascii "&" <> N_of_ascii "/").
Proof.
  assert (I : In (N_of_ascii "&") (sanitizeInput (Some (js "<b>"))))
    by (left; reflexivity).
  split; [exact I|].
  exact (@sanitize_output_has_no_markup (Some (js "<b>")) (N_of_ascii "&") I).
Defined.

(** X2: [sanitizeInput] loses nothing: two strings with the same output are
    the same string. *)
Theorem sanitize_injective (a b : jsstring) :
  sanitizeInput (Some a) = sanitizeInput (Some b) -> a = b.
Proof.
  revert b. induction a as [|c a IH]; intros [|d b].
  - reflexivity.
  - rewrite sanitize_cons. cbn [sanitizeInput replace_each flat_map].
    intros E. exfalso. destruct (special d) eqn:S.
    + destruct (escaped_special d S) as (body & Eb & _). rewrite Eb in E. discriminate.
    + rewrite (escaped_plain d S) in E. discriminate.
  - rewrite sanitize_cons. cbn [sanitizeInput replace_each flat_map].
    intros E. exfalso. destruct (special c) eqn:S.
    + destruct (escaped_special c S) as (body & Eb & _). rewrite Eb in E. discriminate.
    + rewrite (escaped_plain c S) in E. discriminate.
  - rewrite !sanitize_cons. intros E.
    destruct (escaped_prefix _ _ _ _ E) as [-> E']. f_equal. exact (IH b E').
Qed.

Lemma sanitize_injective_witness : js "a<b" = js "a<b".
Proof.
  apply (@sanitize_injective (js "a<b") (js "a<b")). reflexivity.
Defined.

(** X3: a string without any code unit of the class is returned as it is;
    a string with one comes back at least three code units longer, and
    sanitizing the output again makes it longer still: [sanitizeInput] is
    idempotent on the strings without markup and on no other. *)
Theorem sanitize_twice (s : jsstring) :
  (forallb (fun c => negb (special c)) s = true ->
   sanitizeInput (Some s) = s)
  /\ (forallb (fun c => negb (special c)) s = false ->
      (List.length s + 3 <= List.length (sanitizeInput (Some s)))%nat
      /\ (List.length (sanitizeInput (Some s)) + 3
          <= List.length (sanitizeInput (Some (sanitizeInput (Some s)))))%nat)
  /\ (sanitizeInput (Some (sanitizeInput (Some s))) = sanitizeInput (Some s)
      <-> forallb (fun c => negb (special c)) s = true).
Proof.
  assert (L : forallb (fun c => negb (special c)) s = false ->
              (1 <= List.length (filter special s))%nat).
  { intros F. destruct (filter special s) eqn:E; [|cbn; lia].
    apply filter_special_nil in E. congruence. }
  assert (G : forallb (fun c => negb (special c)) s = false ->
      (List.length s + 3 <= List.length (sanitizeInput (Some s)))%nat
      /\ (List.length (sanitizeInput (Some s)) + 3
          <= List.length (sanitizeInput (Some (sanitizeInput (Some s)))))%nat).
  { intros F. specialize (L F).
    pose proof (sanitize_length s) as L1.
    pose proof (sanitize_length (sanitizeInput (Some s))) as L2.
    rewrite sanitize_specials in L2. lia. }
  split; [apply sanitize_plain|]. split; [exact G|]. split.
  - intros E. destruct (forallb _ s) eqn:F; [reflexivity|].
    destruct (G eq_refl) as [_ G2]. rewrite E in G2. lia.
  - intros F. rewrite (sanitize_plain s F). apply sanitize_plain. exact F.
Qed.

(** ** [generateCSRFToken] *)

Section Token.

(** The two digits of a byte. *)
Lemma byte_digits (b : N) :
  (b < 256)%N ->
  padStart 2 (N_of_ascii "0") (toString16 b) = [hexdigit (b / 16); hexdigit (b mod 16)].
Proof.
  intros L. unfold toString16, padStart. destruct (N.ltb_spec b 16) as [A|A].
  - cbn. rewrite N.div_small, N.mod_small by exact A. reflexivity.
  - reflexivity.
Qed.

Lemma hexdigit_spec (d : N) :
  (d < 16)%N ->
  is_hex (hexdigit d) = true
  /\ hexdigit d = (if (d <? 10)%N then 48 + d else 87 + d)%N.
Proof.
  intros L. assert (E : d = N.of_nat (N.to_nat d)) by (symmetry; apply N2Nat.id).
  assert (L' : (N.to_nat d < 16)%nat) by lia.
  rewrite E. clear E L. revert L'. generalize (N.to_nat d). intros n L.
  do 16 (destruct n as [|n]; [split; reflexivity|]). lia.
Qed.

Lemma hexdigit_injective (d e : N) :
  (d < 16)%N -> (e < 16)%N -> hexdigit d = hexdigit e -> d = e.
Proof.
  intros Ld Le. destruct (hexdigit_spec Ld) as [_ ->].
  destruct (hexdigit_spec Le) as [_ ->].
  destruct (N.ltb_spec d 10); destruct (N.ltb_spec e 10); lia.
Qed.

End Token.

(** X4: for an array of bytes the token has two code units per byte, 64 for
    the 32 bytes the script draws, and each of them is one of
    [0123456789abcdef]. *)
Theorem token_is_lowercase_hex (array : list N) :
  Forall (fun b => (b < 256)%N) array ->
  List.length (generateCSRFToken array) = (2 * List.length array)%nat
  /\ (List.length array = 32%nat -> List.length (generateCSRFToken array) = 64%nat)
  /\ forallb is_hex (generateCSRFToken array) = true.
Proof.
  intros F.
  assert (G : List.length (generateCSRFToken array) = (2 * List.length array)%nat
              /\ forallb is_hex (generateCSRFToken array) = true).
  { induction F as [|b array B F IH]; [split; reflexivity|].
    unfold generateCSRFToken in *. cbn [map List.concat].
    rewrite (byte_digits B). destruct IH as [IH1 IH2].
    cbn [app List.length forallb]. rewrite IH1, IH2. split; [lia|].
    assert (Hi : (b / 16 < 16)%N) by (apply N.Div0.div_lt_upper_bound; lia).
    assert (Lo : (b mod 16 < 16)%N) by (apply N.mod_lt; lia).
    destruct (hexdigit_spec Hi) as [-> _]. destruct (hexdigit_spec Lo) as [-> _].
    reflexivity. }
  destruct G as [G1 G2]. split; [exact G1|]. split; [|exact G2].
  intros L. rewrite G1, L. reflexivity.
Qed.

Lemma token_is_lowercase_hex_witness :
  List.length (generateCSRFToken Inputs.bytes) = (2 * List.length Inputs.bytes)%nat
  /\ (List.length Inputs.bytes = 32%nat ->
      List.length (generateCSRFToken Inputs.bytes) = 64%nat)
  /\ forallb is_hex (generateCSRFToken Inputs.bytes) = true.
Proof.
  apply (@token_is_lowercase_hex Inputs.bytes).
  unfold Inputs.bytes. cbn [seq map]. repeat constructor.
Defined.

(** X5: two arrays of bytes that give the same token are the same array: the
    token holds all of the 256 bits drawn. *)
Theorem token_injective (a b : list N) :
  Forall (fun x => (x < 256)%N) a -> Forall (fun x => (x < 256)%N) b ->
  generateCSRFToken a = generateCSRFToken b -> a = b.
Proof.
  intros Fa. revert b. induction Fa as [|x a X Fa IH]; intros b Fb E.
  - destruct Fb as [|y b Y Fb]; [reflexivity|].
    unfold generateCSRFToken in E. cbn [map List.concat] in E.
    rewrite (byte_digits Y) in E. discriminate.
  - destruct Fb as [|y b Y Fb].
    + unfold generateCSRFToken in E. cbn [map List.concat] in E.
      rewrite (byte_digits X) in E. discriminate.
    + unfold generateCSRFToken in *. cbn [map List.concat] in E.
      rewrite (byte_digits X), (byte_digits Y) in E. cbn [app] in E.
      injection E as E1 E2 E3.
      apply hexdigit_injective in E1;
        [|apply N.Div0.div_lt_upper_bound; lia|apply N.Div0.div_lt_upper_bound; lia].
      apply hexdigit_injective in E2; [|apply N.mod_lt; lia|apply N.mod_lt; lia].
      f_equal; [|exact (IH b Fb E3)].
      rewrite (N.div_mod x 16), (N.div_mod y 16) by lia. congruence.
Qed.

Lemma token_injective_witness : Inputs.bytes = Inputs.bytes.
Proof.
  apply (@token_injective Inputs.bytes Inputs.bytes).
  - unfold Inputs.bytes. cbn [seq map]. repeat constructor.
  - unfold Inputs.bytes. cbn [seq map]. repeat constructor.
  - reflexivity.
Defined.

(** ** The three checks *)

Section Validators.

Lemma test_plus_class (p : N -> bool) (s : jsstring) :
  test (Plus (Class p)) s = match s with [] => false | _ => forallb p s end.
Proof.
  destruct (test (Plus (Class p)) s) eqn:T.
  - apply test_matches, matches_plus_class in T. destruct T as [Ne F].
    destruct s; [congruence|]. symmetry. exact F.
  - destruct s as [|c s]; [reflexivity|]. symmetry.
    destruct (forallb p (c :: s)) eqn:F; [|reflexivity].
    assert (M : test (Plus (Class p)) (c :: s) = true).
    { apply test_matches, matches_plus_class. split; [discriminate|exact F]. }
    congruence.
Qed.

Lemma not_space_at_facts (l : jsstring) :
  forallb not_space_at l = true ->
  count_occ N.eq_dec l (N_of_ascii "@") = 0%nat
  /\ forallb (fun c => negb (is_space c)) l = true.
Proof.
  induction l as [|c l IH]; [split; reflexivity|]. cbn [forallb count_occ].
  intros A. apply andb_true_iff in A. destruct A as [A B].
  destruct (IH B) as [IH1 IH2]. unfold not_space_at in A.
  apply negb_true_iff, orb_false_iff in A. destruct A as [A1 A2].
  rewrite A1, IH2. split; [|reflexivity].
  destruct (N.eq_dec c (N_of_ascii "@")) as [->|_]; [discriminate|exact IH1].
Qed.

(** The words of [emailRegex]. *)
Lemma emailRegex_words (s : jsstring) :
  matches emailRegex s
  <-> exists a b c,
        s = a ++ [N_of_ascii "@"] ++ b ++ [N_of_ascii "."] ++ c
        /\ a <> [] /\ b <> [] /\ c <> []
        /\ forallb not_space_at a = true /\ forallb not_space_at b = true
        /\ forallb not_space_at c = true.
Proof.
  unfold emailRegex. split.
  - intros M.
    destruct (matches_seq_inv M) as (a & s1 & -> & A & M1).
    destruct (matches_seq_inv M1) as (at1 & s2 & -> & At & M2).
    destruct (matches_seq_inv M2) as (b & s3 & -> & B & M3).
    destruct (matches_seq_inv M3) as (dot & c & -> & Dot & C).
    apply matches_plus_class in A, B, C.
    destruct (matches_class_inv At) as (x & -> & X).
    destruct (matches_class_inv Dot) as (y & -> & Y).
    apply N.eqb_eq in X, Y. subst x y.
    exists a, b, c. intuition.
  - intros (a & b & c & -> & Na & Nb & Nc & A & B & C).
    apply m_seq; [apply matches_plus_class; auto|].
    apply m_seq; [constructor; reflexivity|].
    apply m_seq; [apply matches_plus_class; auto|].
    apply m_seq; [constructor; reflexivity|].
    apply matches_plus_class; auto.
Qed.

End Validators.

(** X6: [validateEmail] accepts exactly the strings [a@b.c] whose three
    parts are not empty and hold neither whitespace nor [@].  An accepted
    email therefore has exactly one [@], no whitespace at all and at least
    five code units. *)
Theorem validateEmail_accepts (email : jsstring) :
  (validateEmail email = true
   <-> exists a b c,
         email = a ++ [N_of_ascii "@"] ++ b ++ [N_of_ascii "."] ++ c
         /\ a <> [] /\ b <> [] /\ c <> []
         /\ forallb not_space_at a = true /\ forallb not_space_at b = true
         /\ forallb not_space_at c = true)
  /\ (validateEmail email = true ->
      count_occ N.eq_dec email (N_of_ascii "@") = 1%nat
      /\ forallb (fun c => negb (is_space c)) email = true
      /\ (5 <= List.length email)%nat).
Proof.
  assert (W : validateEmail email = true <-> matches emailRegex email)
    by apply test_matches.
  split; [rewrite W; apply emailRegex_words|].
  intros V. apply W, emailRegex_words in V.
  destruct V as (a & b & c & -> & Na & Nb & Nc & A & B & C).
  destruct (not_space_at_facts a A) as [A1 A2].
  destruct (not_space_at_facts b B) as [B1 B2].
  destruct (not_space_at_facts c C) as [C1 C2].
  rewrite !count_occ_app, !forallb_app, !length_app, A1, B1, C1, A2, B2, C2.
  split; [reflexivity|]. split; [reflexivity|].
  destruct a; [congruence|]. destruct b; [congruence|]. destruct c; [congruence|].
  cbn. lia.
Qed.

(** X7: [validatePhone] accepts a phone exactly when each of its code units
    is a digit, a whitespace or one of [+ - ( )]: the empty phone passes, and
    no digit is asked for. *)
Theorem validatePhone_accepts (phone : jsstring) :
  validatePhone phone = forallb phone_unit phone.
Proof.
  unfold validatePhone, phoneRegex. rewrite test_plus_class.
  destruct phone; reflexivity.
Qed.

(** X8: [validateName] accepts a name exactly when it is not empty and each
    of its code units is in the class of [nameRegex].  An accepted name holds
    no digit, and of the code units [sanitizeInput] escapes it can hold the
    apostrophe only. *)
Theorem validateName_accepts (name : jsstring) :
  (validateName name = true <-> name <> [] /\ forallb name_unit name = true)
  /\ (validateName name = true ->
      forall c, In c name ->
        is_digit c = false /\ (special c = true -> c = N_of_ascii "'")).
Proof.
  assert (W : validateName name = true <-> name <> [] /\ forallb name_unit name = true).
  { unfold validateName, nameRegex. rewrite test_plus_class.
    destruct name; [split; [discriminate|intros [A _]; congruence]|].
    split; [intros F; split; [discriminate|exact F]|intros [_ F]; exact F]. }
  split; [exact W|]. intros V c I. apply W in V. destruct V as [_ F].
  rewrite forallb_forall in F. specialize (F c I).
  split.
  - destruct (is_digit c) eqn:D; [|reflexivity]. exfalso.
    unfold is_digit in D. apply andb_true_iff in D. destruct D as [D1 D2].
    apply N.leb_le in D1, D2.
    assert (Z : name_unit c = false).
    { assert (E : c = (48 + N.of_nat (N.to_nat (c - 48)))%N) by lia.
      assert (L : (N.to_nat (c - 48) < 10)%nat) by lia.
      rewrite E. clear - L. revert L. generalize (N.to_nat (c - 48)). intros n L.
      do 10 (destruct n as [|n]; [reflexivity|]). lia. }
    congruence.
  - intros S.
    destruct (special_cases c S) as [-> | [-> | [-> | [-> | [-> | ->]]]]];
      try reflexivity; discriminate.
Qed.

(** ** The rate limiter and the submit listener *)

Section Limiter.
Import rateLimiter.
Local Open Scope Z_scope.

Lemma onSubmit_cases (now later : Z) (formData : FormData) (this : t) :
  onSubmit now later formData this
  = let this' := refreshed now this in
    if attempts this' <? maxAttempts then
      if isValid (validateFormData formData)
      then (sent, {| attempts := attempts this' + 1; lastReset := lastReset this' |})
      else (invalid (errors (validateFormData formData)), this')
    else (refused (ceil_thousandth (resetTime - (later - lastReset this'))), this').
Proof.
  unfold onSubmit, refreshed. rewrite bind_eq. unfold canSubmit. cbn [fst snd]. cbv zeta.
  set (this' := if now - lastReset this >? resetTime then _ else _).
  destruct (attempts this' <? maxAttempts); cbn [negb]; [|reflexivity].
  destruct (isValid (validateFormData formData)); reflexivity.
Qed.

Lemma onSubmits_cons (ev : Z * Z * FormData) (events : list (Z * Z * FormData)) (this : t) :
  onSubmits (ev :: events) this
  = let '(now, later, formData) := ev in
    let r := onSubmit now later formData this in
    (fst r :: fst (onSubmits events (snd r)), snd (onSubmits events (snd r))).
Proof.
  destruct ev as [[now later] formData]. cbn [onSubmits]. unfold bind, ret.
  destruct (onSubmit now later formData this) as [o this1]. cbn [fst snd].
  destruct (onSubmits events this1). reflexivity.
Qed.

Lemma all_below_iter (n : N) (p : Z -> bool) :
  let s := N.iter n (fun s : Z * bool => (fst s + 1, snd s && p (fst s))) (0, true) in
  fst s = Z.of_N n
  /\ (snd s = true -> forall x, 0 <= x < Z.of_N n -> p x = true).
Proof.
  induction n as [|n IH] using N.peano_ind.
  - cbn. split; [reflexivity|]. intros _ x Hx. lia.
  - rewrite N.iter_succ. cbn zeta in *. destruct IH as [IH1 IH2].
    set (s := N.iter n _ _) in *. cbn [fst snd]. split; [lia|].
    intros A x Hx. apply andb_true_iff in A. destruct A as [A B].
    destruct (Z.eq_dec x (Z.of_N n)) as [->|Ne].
    + rewrite <- IH1. exact B.
    + apply IH2; [exact A|lia].
Qed.

Lemma all_below_spec (n : N) (p : Z -> bool) (x : Z) :
  all_below n p = true -> 0 <= x < Z.of_N n -> p x = true.
Proof. intros A. apply (all_below_iter n p). exact A. Qed.

(** The ceiling of the script on doubles is the integer one, for each
    number of milliseconds left in a window. *)
Lemma ceil_thousandth_on_doubles (x : Z) :
  0 <= x <= 60000 -> is_ceil_thousandth_binary64 x (ceil_thousandth x) = true.
Proof.
  intros Hx.
  apply (all_below_spec 60001
           (fun x => is_ceil_thousandth_binary64 x (ceil_thousandth x))); [|lia].
  vm_compute. reflexivity.
Qed.

End Limiter.

Section LimiterFacts.
Import rateLimiter.
Local Open Scope Z_scope.

Lemma refreshed_cases (now : Z) (this : t) :
  refreshed now this
  = if now - lastReset this >? resetTime
    then {| attempts := 0; lastReset := now |} else this.
Proof.
  unfold refreshed, canSubmit. cbn [snd]. reflexivity.
Qed.

Lemma refreshed_attempts (now : Z) (this : t) :
  0 <= attempts this <= 5 -> 0 <= attempts (refreshed now this) <= 5.
Proof.
  intros R. rewrite refreshed_cases.
  destruct (now - lastReset this >? resetTime); cbn; lia.
Qed.

(** One event: the count stays between 0 and 5, and moves, by one, only
    when the form is sent. *)
Lemma onSubmit_attempts (now later : Z) (formData : FormData) (this : t) :
  0 <= attempts this <= 5 ->
  let r := onSubmit now later formData this in
  0 <= attempts (snd r) <= 5
  /\ attempts (snd r)
     = attempts (refreshed now this) + (if is_sent (fst r) then 1 else 0)
  /\ lastReset (snd r) = lastReset (refreshed now this).
Proof.
  intros R. cbn zeta. rewrite onSubmit_cases. cbn zeta.
  pose proof (refreshed_attempts now this R) as R'.
  destruct (Z.ltb_spec (attempts (refreshed now this)) maxAttempts) as [L|L];
    [destruct (isValid (validateFormData formData))|];
    cbn [fst snd is_sent attempts lastReset]; unfold maxAttempts in L; lia.
Qed.

Lemma onSubmit_refused (now later : Z) (formData : FormData) (this this' : t) (wait : Z) :
  onSubmit now later formData this = (refused wait, this') ->
  this' = refreshed now this /\ 5 <= attempts (refreshed now this)
  /\ wait = ceil_thousandth (60000 - (later - lastReset (refreshed now this))).
Proof.
  rewrite onSubmit_cases. cbv zeta. unfold maxAttempts, resetTime.
  generalize (isValid (validateFormData formData)).
  generalize (errors (validateFormData formData)). intros errs valid.
  generalize (refreshed now this). intros r.
  generalize (ceil_thousandth (60000 - (later - lastReset r))). intros w.
  destruct (Z.ltb_spec (attempts r) 5) as [L|L].
  - destruct valid; discriminate.
  - intros E. inversion E. subst. repeat split. exact L.
Qed.

Lemma limiter_wait_range (y : Z) :
  0 <= y <= 60000 ->
  0 <= ceil_thousandth y <= 60
  /\ is_ceil_thousandth_binary64 y (ceil_thousandth y) = true.
Proof.
  intros Y. split; [|apply ceil_thousandth_on_doubles; exact Y].
  unfold ceil_thousandth.
  assert (D1 : - 60 <= (- y) / 1000) by (apply Z.div_le_lower_bound; lia).
  assert (D2 : (- y) / 1000 <= 0) by (apply Z.div_le_upper_bound; lia).
  lia.
Qed.

End LimiterFacts.

(** The count after any run of submit events. *)
Lemma onSubmits_attempts
  (events : list (Z * Z * FormData)) (this : rateLimiter.t) :
  (0 <= rateLimiter.attempts this <= 5)%Z ->
  (0 <= rateLimiter.attempts (snd (onSubmits events this)) <= 5)%Z.
Proof.
  revert this. induction events as [|[[now later] formData] events IH]; intros this R.
  - exact R.
  - rewrite onSubmits_cons. cbn [snd]. apply IH.
    apply (onSubmit_attempts now later formData this R).
Qed.

(** X9: whatever the submit events, their times and their forms, the count
    of the limiter stays between 0 and 5. *)
Theorem limiter_attempts_bounded
  (events : list (Z * Z * FormData)) (this : rateLimiter.t) :
  (0 <= rateLimiter.attempts this <= 5)%Z ->
  (0 <= rateLimiter.attempts (snd (onSubmits events this)) <= 5)%Z.
Proof. apply onSubmits_attempts. Qed.

Lemma limiter_attempts_bounded_witness :
  (0 <= rateLimiter.attempts (rateLimiter.init 1000) <= 5)%Z
  /\ (0 <= rateLimiter.attempts
             (snd (onSubmits [(2000, 2000, Inputs.filled); (3000, 3000, Inputs.filled)]%Z
                             (rateLimiter.init 1000))) <= 5)%Z.
Proof.
  split; [cbn; lia|]. apply limiter_attempts_bounded. cbn. lia.
Defined.

(** X10: as long as the window that is open has not run out (no event comes
    more than 60000 ms after [lastReset]), each form that is sent is counted,
    nothing else is, and no more than [5 - attempts] forms are sent. *)
Theorem limiter_caps_a_window
  (events : list (Z * Z * FormData)) (this : rateLimiter.t) :
  (0 <= rateLimiter.attempts this <= 5)%Z ->
  Forall (fun ev => (fst (fst ev) - rateLimiter.lastReset this <= 60000)%Z) events ->
  let r := onSubmits events this in
  rateLimiter.attempts (snd r)
  = (rateLimiter.attempts this + Z.of_nat (List.length (filter is_sent (fst r))))%Z
  /\ rateLimiter.lastReset (snd r) = rateLimiter.lastReset this
  /\ (Z.of_nat (List.length (filter is_sent (fst r))) <= 5 - rateLimiter.attempts this)%Z.
Proof.
  intros R F. cbn zeta.
  assert (G : rateLimiter.attempts (snd (onSubmits events this))
              = (rateLimiter.attempts this
                 + Z.of_nat (List.length (filter is_sent (fst (onSubmits events this)))))%Z
              /\ rateLimiter.lastReset (snd (onSubmits events this))
                 = rateLimiter.lastReset this).
  { revert this R F.
    induction events as [|[[now later] formData] events IH]; intros this R F.
    - cbn. split; [lia|reflexivity].
    - rewrite onSubmits_cons. cbn [fst snd filter].
      inversion F as [|? ? F1 F2]; subst. cbn [fst] in F1.
      destruct (onSubmit_attempts now later formData this R) as (B & A & L).
      assert (E : refreshed now this = this).
      { rewrite refreshed_cases. unfold rateLimiter.resetTime.
        destruct (Z.gtb_spec (now - rateLimiter.lastReset this) 60000); [lia|reflexivity]. }
      rewrite E in A, L.
      destruct (IH (snd (onSubmit now later formData this)) B) as [IH1 IH2].
      { rewrite L. exact F2. }
      rewrite IH1, IH2, A, L. split; [|reflexivity].
      destruct (is_sent (fst (onSubmit now later formData this))); cbn [List.length]; lia. }
  destruct G as [G1 G2]. split; [exact G1|]. split; [exact G2|].
  pose proof (onSubmits_attempts events this R) as B. lia.
Qed.

Lemma limiter_caps_a_window_witness :
  let events := repeat (2000, 2000, Inputs.filled)%Z 7 in
  (0 <= rateLimiter.attempts (rateLimiter.init 1000) <= 5)%Z
  /\ Forall (fun ev => (fst (fst ev) - rateLimiter.lastReset (rateLimiter.init 1000)
                        <= 60000)%Z) events
  /\ (Z.of_nat (List.length (filter is_sent
                               (fst (onSubmits events (rateLimiter.init 1000)))))
      <= 5 - rateLimiter.attempts (rateLimiter.init 1000))%Z.
Proof.
  cbv zeta.
  assert (R : (0 <= rateLimiter.attempts (rateLimiter.init 1000) <= 5)%Z) by (cbn; lia).
  assert (F : Forall (fun ev => (fst (fst ev) - rateLimiter.lastReset (rateLimiter.init 1000)
                                 <= 60000)%Z) (repeat (2000, 2000, Inputs.filled)%Z 7)).
  { repeat constructor; cbn; lia. }
  split; [exact R|]. split; [exact F|].
  apply (@limiter_caps_a_window _ _ R F).
Defined.

(** X11: a submission is refused only while the count is at 5 in a window
    that has not run out; the limiter is left as it was, and when the clock
    has not gone back the wait that is announced is between 0 and 60
    seconds, 60 being announced when the refusal comes at the very time of
    [lastReset], 0 when it comes in the last instant of the window. *)
Theorem refused_wait_is_bounded
  (now later : Z) (formData : FormData) (this this' : rateLimiter.t) (wait : Z) :
  onSubmit now later formData this = (refused wait, this') ->
  (this' = this /\ 5 <= rateLimiter.attempts this
   /\ now - rateLimiter.lastReset this <= 60000)%Z
  /\ (wait = rateLimiter.ceil_thousandth
               (60000 - (later - rateLimiter.lastReset this)))
  /\ ((rateLimiter.lastReset this <= later <= rateLimiter.lastReset this + 60000)%Z ->
      (0 <= wait <= 60)%Z
      /\ is_ceil_thousandth_binary64
           (60000 - (later - rateLimiter.lastReset this)) wait = true).
Proof.
  intros E.
  destruct (onSubmit_refused _ _ _ _ E) as (E1 & L & E2).
  assert (K : refreshed now this = this
              /\ (now - rateLimiter.lastReset this <= 60000)%Z).
  { clear E1 E2. revert L. rewrite refreshed_cases. unfold rateLimiter.resetTime.
    destruct (Z.gtb_spec (now - rateLimiter.lastReset this) 60000) as [G|G].
    - cbn [rateLimiter.attempts]. lia.
    - intros _. split; [reflexivity|exact G]. }
  destruct K as [K1 K2]. rewrite K1 in E1, L, E2. subst this'.
  split; [repeat split; [exact L|exact K2]|]. split; [exact E2|].
  intros C. rewrite E2.
  apply limiter_wait_range. lia.
Qed.

Lemma refused_wait_is_bounded_witness :
  let full := {| rateLimiter.attempts := 5; rateLimiter.lastReset := 1000 |}%Z in
  onSubmit 31000 31500 Inputs.filled full = (refused 30, full)
  /\ (0 <= 30 <= 60)%Z.
Proof.
  cbv zeta. split; [vm_compute; reflexivity|].
  apply (@refused_wait_is_bounded 31000 31500 Inputs.filled
           {| rateLimiter.attempts := 5; rateLimiter.lastReset := 1000 |}
           {| rateLimiter.attempts := 5; rateLimiter.lastReset := 1000 |} 30)%Z.
  - vm_compute. reflexivity.
  - cbn. lia.
Defined.

Section Burst.
Import rateLimiter.
Local Open Scope Z_scope.

Lemma onSubmits_app (l1 l2 : list (Z * Z * FormData)) (this : t) :
  onSubmits (l1 ++ l2) this
  = (fst (onSubmits l1 this) ++ fst (onSubmits l2 (snd (onSubmits l1 this))),
     snd (onSubmits l2 (snd (onSubmits l1 this)))).
Proof.
  revert this. induction l1 as [|ev l1 IH]; intros this.
  - cbn. destruct (onSubmits l2 this). reflexivity.
  - cbn [app]. rewrite !onSubmits_cons. destruct ev as [[now later] formData].
    cbv zeta. rewrite IH. reflexivity.
Qed.

(** A valid form that comes while there is room in the open window is sent
    and counted. *)
Lemma onSubmit_sent (now later : Z) (formData : FormData) (k r : Z) :
  isValid (validateFormData formData) = true ->
  now - r <= 60000 -> k < 5 ->
  onSubmit now later formData {| attempts := k; lastReset := r |}
  = (sent, {| attempts := k + 1; lastReset := r |}).
Proof.
  intros V W K. rewrite onSubmit_cases. cbv zeta. rewrite refreshed_cases, V.
  unfold resetTime, maxAttempts. cbn [attempts lastReset].
  destruct (Z.gtb_spec (now - r) 60000); [lia|]. cbn [attempts lastReset].
  destruct (Z.ltb_spec k 5); [reflexivity|lia].
Qed.

(** A valid form that comes after the window has run out opens a new one
    and is sent. *)
Lemma onSubmit_reopens (now later : Z) (formData : FormData) (k r : Z) :
  isValid (validateFormData formData) = true ->
  60000 < now - r ->
  onSubmit now later formData {| attempts := k; lastReset := r |}
  = (sent, {| attempts := 1; lastReset := now |}).
Proof.
  intros V W. rewrite onSubmit_cases. cbv zeta. rewrite refreshed_cases, V.
  unfold resetTime, maxAttempts. cbn [attempts lastReset].
  destruct (Z.gtb_spec (now - r) 60000); [|lia]. reflexivity.
Qed.

Lemma onSubmits_sent (n : nat) (now later : Z) (formData : FormData) (k r : Z) :
  isValid (validateFormData formData) = true ->
  now - r <= 60000 -> k + Z.of_nat n <= 5 ->
  onSubmits (repeat (now, later, formData) n) {| attempts := k; lastReset := r |}
  = (repeat sent n, {| attempts := k + Z.of_nat n; lastReset := r |}).
Proof.
  intros V W. revert k. induction n as [|n IH]; intros k K.
  - cbn. rewrite Z.add_0_r. reflexivity.
  - cbn [repeat]. rewrite onSubmits_cons. cbv zeta.
    rewrite (@onSubmit_sent now later formData k r V W) by lia. cbn [fst snd].
    rewrite IH by lia. cbn [fst snd]. do 2 f_equal. lia.
Qed.

End Burst.

(** X12: the window is fixed, it does not slide: on a limiter made at the
    time [t0], five valid forms submitted 60000 ms later are all sent, and
    so are five more one millisecond after them. *)
Theorem limiter_window_is_fixed (t0 : Z) (formData : FormData) :
  isValid (validateFormData formData) = true ->
  fst (onSubmits (repeat (t0 + 60000, t0 + 60000, formData)%Z 5
                  ++ repeat (t0 + 60001, t0 + 60001, formData)%Z 5)
                 (rateLimiter.init t0))
  = repeat sent 10.
Proof.
  intros V. rewrite onSubmits_app. cbn [fst]. unfold rateLimiter.init.
  rewrite (@onSubmits_sent 5 (t0 + 60000) (t0 + 60000) formData 0 t0 V) by lia.
  cbn [fst snd]. change (repeat (t0 + 60001, t0 + 60001, formData) 5)%Z
    with ((t0 + 60001, t0 + 60001, formData)%Z
          :: repeat (t0 + 60001, t0 + 60001, formData)%Z 4).
  rewrite onSubmits_cons. cbv zeta.
  rewrite (@onSubmit_reopens (t0 + 60001) (t0 + 60001) formData (0 + Z.of_nat 5) t0 V)
    by lia.
  cbn [fst snd].
  rewrite (@onSubmits_sent 4 (t0 + 60001) (t0 + 60001) formData 1 (t0 + 60001) V) by lia.
  reflexivity.
Qed.

Lemma limiter_window_is_fixed_witness :
  isValid (validateFormData Inputs.filled) = true
  /\ fst (onSubmits (repeat (61000, 61000, Inputs.filled)%Z 5
                     ++ repeat (61001, 61001, Inputs.filled)%Z 5)
                    (rateLimiter.init 1000))
     = repeat sent 10.
Proof.
  split; [vm_compute; reflexivity|].
  apply (@limiter_window_is_fixed 1000 Inputs.filled). vm_compute. reflexivity.
Defined.

(** ** [validateFormData] *)

Section Form.

Lemma keys_nil (e : Errors.t) : Errors.keys e = [] <-> e = Errors.none.
Proof.
  destruct e as [[n|] [m|] [p|] [s|] [t|]]; cbn; split; intros E;
    try discriminate; reflexivity.
Qed.

Lemma agrees_failed (e : Errors.t) :
  e <> Errors.none -> agrees {| isValid := false; errors := e |}.
Proof. intros Ne. unfold agrees. cbn. split; [discriminate|congruence]. Qed.

End Form.

(** Takes the local definitions of [validateFormData] one by one, from the
    last field checked to the first. *)
Ltac field_by_field close :=
  repeat match goal with
         | |- ?P (let x := ?a in @?f x) =>
             change (let x := a in P (f x)); intro; cbv beta
         end;
  repeat match goal with
         | |- ?P ?v =>
             is_var v; subst v;
             repeat match goal with
                    | |- ?P (if ?c then _ else _) =>
                        let E := fresh "C" in destruct c eqn:E
                    end;
             try close
         end.

(** The flag and the object of errors go together. *)
Lemma validation_agrees (formData : FormData) : agrees (validateFormData formData).
Proof.
  cbv beta delta [validateFormData].
  field_by_field
    ltac:(idtac; match goal with
          | f := _ |- agrees (?f _ _) =>
              subst f; apply agrees_failed; discriminate
          end).
  unfold agrees. cbn. split; reflexivity.
Qed.

(** X13: [isValid] is [true] exactly when [errors] has no key: the listener
    shows a message on a field exactly when the form is turned down. *)
Theorem isValid_iff_no_error (formData : FormData) :
  (isValid (validateFormData formData) = true
   <-> errors (validateFormData formData) = Errors.none)
  /\ (isValid (validateFormData formData) = true
      <-> Errors.keys (errors (validateFormData formData)) = []).
Proof.
  pose proof (validation_agrees formData) as A.
  split; [exact A|]. rewrite keys_nil. exact A.
Qed.

Section FormFields.

Lemma falsy_text (o : option jsstring) : falsy o = true <-> text o = [].
Proof. destruct o as [[|c s]|]; cbn; split; intros E; congruence. Qed.

Lemma falsy_text_false (o : option jsstring) : falsy o = false <-> text o <> [].
Proof. destruct o as [[|c s]|]; cbn; split; intros E; congruence. Qed.

Lemma len_text (o : option jsstring) : len o = List.length (text o).
Proof. destruct o; reflexivity. Qed.

End FormFields.

(** Turns the tests that were taken or not into facts about the fields. *)
Ltac field_facts :=
  repeat match goal with
         | x := _ |- _ => subst x
         end;
  unfold well_filled, trimmed in *;
  repeat match goal with
         | H : _ || _ = true |- _ => apply orb_true_iff in H
         | H : _ || _ = false |- _ => apply orb_false_iff in H; destruct H
         | H : _ && _ = true |- _ => apply andb_true_iff in H; destruct H
         | H : _ && _ = false |- _ => apply andb_false_iff in H
         | H : negb _ = true |- _ => apply negb_true_iff in H
         | H : negb _ = false |- _ => apply negb_false_iff in H
         | H : (_ <? _)%nat = true |- _ => apply Nat.ltb_lt in H
         | H : (_ <? _)%nat = false |- _ => apply Nat.ltb_ge in H
         | H : falsy _ = true |- _ => apply falsy_text in H
         | H : falsy _ = false |- _ => apply falsy_text_false in H
         end;
  rewrite ?len_text in *.

(** The tests of [validateFormData], field by field. *)
Lemma valid_well_filled (formData : FormData) :
  isValid (validateFormData formData) = true <-> well_filled formData.
Proof.
  split.
  - change (valid_only_if (well_filled formData) (validateFormData formData)).
    cbv beta delta [validateFormData].
    field_by_field
      ltac:(idtac; match goal with
            | f := _ |- valid_only_if _ (?f _ _) => subst f; intros E; discriminate E
            end).
    intros _. field_facts.
    repeat split; try assumption; try lia.
    destruct (falsy (option_map trim (formData "phone"%string))) eqn:F.
    + left. apply falsy_text. exact F.
    + right. cbn [negb] in *.
      destruct C2 as [C2|C2]; [discriminate|]. destruct C3 as [C3|C3]; [discriminate|].
      apply negb_false_iff in C2. apply Nat.ltb_ge in C3. split; assumption.
  - change (valid_if (well_filled formData) (validateFormData formData)).
    cbv beta delta [validateFormData].
    field_by_field
      ltac:(idtac; match goal with
            | f := _ |- valid_if _ (?f _ _) =>
                subst f; intros Q; exfalso; field_facts;
                destruct Q as ((Q1 & Q2) & (Q3 & Q4) & Q5 & Q6 & Q7);
                repeat (match goal with
                        | H : _ \/ _ |- _ => destruct H
                        | H : _ /\ _ |- _ => destruct H
                        end; field_facts);
                try lia; try congruence;
                match goal with
                | H : text _ = [] |- _ =>
                    rewrite H in *; cbn in *; first [lia|discriminate|congruence]
                end
            end).
    intros _. reflexivity.
Qed.

(** X14: the form is valid exactly when, once trimmed, the name has 2 to
    100 code units, all in the class of names; the email has the form of an
    email and at most 100 code units; the phone is empty or made of phone
    characters, 20 at most; a service is chosen; and the message has 10 to
    1000 code units. *)
Theorem isValid_iff_well_filled (formData : FormData) :
  isValid (validateFormData formData) = true <-> well_filled formData.
Proof. apply valid_well_filled. Qed.

(** X15: what the listener does with a form.  It sends it only if it is
    well filled and the limiter has room, and counts it.  A form it turns
    down for its fields comes with at least one error key and is not
    counted.  It does not look at the fields of a form it refuses. *)
Theorem onSubmit_outcomes
  (now later : Z) (formData : FormData) (this : rateLimiter.t) :
  let o := fst (onSubmit now later formData this) in
  let this' := snd (onSubmit now later formData this) in
  (o = sent ->
   well_filled formData
   /\ (rateLimiter.attempts (refreshed now this) < 5)%Z
   /\ rateLimiter.attempts this' = (rateLimiter.attempts (refreshed now this) + 1)%Z)
  /\ (forall e, o = invalid e ->
        ~ well_filled formData /\ Errors.keys e <> []
        /\ e = errors (validateFormData formData)
        /\ this' = refreshed now this)
  /\ (forall wait, o = refused wait ->
        (5 <= rateLimiter.attempts (refreshed now this))%Z
        /\ this' = refreshed now this).
Proof.
  cbv zeta. rewrite onSubmit_cases. cbv zeta.
  unfold rateLimiter.maxAttempts.
  pose proof (valid_well_filled formData) as V.
  assert (K : isValid (validateFormData formData) = true
              <-> Errors.keys (errors (validateFormData formData)) = [])
    by (rewrite keys_nil; apply validation_agrees).
  revert V K. generalize (isValid (validateFormData formData)).
  generalize (errors (validateFormData formData)). intros errs valid V K.
  generalize (rateLimiter.ceil_thousandth
                (rateLimiter.resetTime
                 - (later - rateLimiter.lastReset (refreshed now this)))).
  intros w.
  destruct (Z.ltb_spec (rateLimiter.attempts (refreshed now this)) 5) as [L|L];
    [destruct valid|]; cbn [fst snd rateLimiter.attempts].
  - split; [|split; intros; discriminate].
    intros _. split; [apply V; reflexivity|]. split; [exact L|reflexivity].
  - split; [discriminate|]. split; [|intros; discriminate].
    intros e E. injection E as <-. split; [intros Q; apply V in Q; discriminate|].
    split; [intros E; apply K in E; discriminate|]. split; reflexivity.
  - split; [discriminate|]. split; [intros; discriminate|].
    intros wait _. split; [exact L|reflexivity].
Qed.

(** * More on the engine *)

Section Frames.
Context {num : Type} {N : JSNumber num} {M : JSMath num}.

(** Any number of frames from a clock whose scene exists: the pools keep
    their sizes, the size of the surface and of the canvas is not touched,
    no listener is added and one frame is requested per call. *)
Lemma frames_page (n : nat) (e : Engine num) (h : Host num) :
  (0 <= sceneIndex e < 5)%Z ->
  exists e' h', frames n e h = Normal (e', h')
    /\ (0 <= sceneIndex e' < 5)%Z
    /\ List.length (particles e') = List.length (particles e)
    /\ List.length (goldLines e') = List.length (goldLines e)
    /\ List.length (shapes e') = List.length (shapes e)
    /\ W e' = W e /\ H e' = H e
    /\ hero_canvas h' = hero_canvas h
    /\ resizeListeners h' = resizeListeners h
    /\ animationFrames h' = (animationFrames h + n)%nat.
Proof.
  intros R. induction n as [|n IH].
  - exists e, h. cbn. repeat split; try lia.
  - destruct IH as (e1 & h1 & F & R1 & P1 & G1 & S1 & W1 & H1 & C1 & L1 & A1).
    destruct (@loop_normal num N M e1 h1 (@tick_scene_range num N M e1 R1))
      as [[e2 h2] L].
    destruct (loop_engine _ _ L) as (I2 & _ & _ & W2 & H2).
    destruct (loop_page _ _ L) as (C2 & _ & _ & _ & L2 & A2 & _ & P2 & G2 & S2).
    exists e2, h2. cbn [frames]. rewrite F. split; [exact L|].
    split; [rewrite I2; apply tick_scene_range; exact R1|].
    repeat split; try congruence. rewrite A2, A1. lia.
Qed.

End Frames.

(** X16: from the start of the engine, any number of frames runs without a
    throw and leaves 150 particles, 10 streaks and 16 shapes in the pools,
    the canvas at the size [W] by [H], one [resize] listener more than the
    page had, and as many frames requested as were run. *)
Theorem engine_keeps_its_pools
  {num : Type} {N : JSNumber num} {M : JSMath num} (h : Host num) (n : nat) :
  exists e' h',
    frames n (fst (setup h)) (snd (setup h)) = Normal (e', h')
    /\ List.length (particles e') = 150%nat
    /\ List.length (goldLines e') = 10%nat
    /\ List.length (shapes e') = 16%nat
    /\ hero_canvas h' = Some (W e', H e')
    /\ resizeListeners h' = S (resizeListeners h)
    /\ animationFrames h' = (animationFrames h + n)%nat.
Proof.
  destruct (setup_state h) as (L1 & L2 & L3 & _ & _ & I & _ & _ & C & R & A).
  destruct (@frames_page num N M n (fst (setup h)) (snd (setup h)))
    as (e' & h' & F & _ & P1 & P2 & P3 & W1 & H1 & C1 & R1 & A1).
  { rewrite I. lia. }
  exists e', h'. split; [exact F|].
  repeat split; try congruence.
Qed.

(** X17: the frame that comes after [n] frames paints, at the size of the
    surface, the scene [((n + 1) / 420) mod 5] at the time [n + 1] with the
    opacity [sceneAlpha ((n + 1) mod 420)]: it clears the surface, saves,
    sets the opacity, paints the scene and restores before it paints the
    pools. *)
Theorem frame_paints_its_scene
  {num : Type} {N : JSNumber num} {M : JSMath num} (h : Host num) (n : nat) :
  exists e1 h1 e2 h2 scene rest,
    frames n (fst (setup h)) (snd (setup h)) = Normal (e1, h1)
    /\ loop e1 h1 = Normal (e2, h2)
    /\ index scenes ((Z.of_nat (S n) / 420) mod 5)%Z = Some scene
    /\ canvas_log h2
       = canvas_log h1
         ++ [clearRect ($0)%js ($0)%js (of_Z (W e1)) (of_Z (H e1)); save;
             globalAlpha (sceneAlpha (Z.of_nat (S n) mod 420)%Z)]
         ++ scene (W e1) (H e1) (Z.of_nat (S n)) ++ restore :: rest.
Proof.
  destruct (setup_state h) as (_ & _ & _ & _ & _ & I & T & A & _).
  destruct (@frames_clock num N M (fst (setup h)) (snd (setup h)) n I T A)
    as (e1 & h1 & F & I1 & T1 & A1 & _).
  destruct (tick_clock e1 (n := Z.of_nat n) ltac:(lia) I1 T1 A1) as (I2 & T2 & A2).
  replace (Z.of_nat n + 1)%Z with (Z.of_nat (S n)) in * by lia.
  destruct (@loop_normal num N M e1 h1) as [[e2 h2] L].
  { rewrite I2. apply Z.mod_pos_bound. lia. }
  destruct (loop_page _ _ L) as (_ & _ & _ & _ & _ & _ & (scene & rest & Sc & P) & _).
  rewrite I2 in Sc. rewrite T2, A2 in P.
  exists e1, h1, e2, h2, scene, rest. repeat split; assumption.
Qed.

(** ** The opacity of the scene stays between 0 and 1 *)

Section AlphaRange.
Local Open Scope Q_scope.

Lemma alpha_in_range_all : all_below 420 alpha_in_range = true.
Proof. vm_compute. reflexivity. Qed.

End AlphaRange.

(** X18: at every scene time the loop can reach, from 0 to 419, the opacity
    it sets for the scene is between 0 and 1, in exact arithmetic and on
    doubles.  It is 0 at the scene time 0 only: the way down stops at
    [1/42], on the last frame of the scene. *)
Theorem scene_alpha_in_unit_interval (e : Z) :
  (0 <= e < 420)%Z ->
  (0 <= sceneAlpha (num := Q) e <= 1)%Q
  /\ (sceneAlpha (num := Q) e == 0 <-> e = 0%Z)%Q
  /\ (sceneAlpha (num := Q) 419 == 1 # 42)%Q
  /\ alpha_in_range e = true.
Proof.
  intros R.
  assert (P : forall x : Z, (0 < inject_Z x)%Q <-> (0 < x)%Z)
    by (intros x; unfold Qlt; cbn; lia).
  assert (D : (sceneAlpha (num := Q) 419 == 1 # 42)%Q)
    by (rewrite sceneAlpha_ramp_down by lia; reflexivity).
  split; [|split; [|split; [exact D|]]].
  - destruct (Z_lt_le_dec e 42) as [A|A]; [|destruct (Z_le_gt_dec e 378) as [B|B]].
    + rewrite (@sceneAlpha_ramp_up e A). unfold Qdiv.
      assert (0 <= inject_Z e)%Q by (unfold Qle; cbn; lia).
      assert (inject_Z e <= 42)%Q by (unfold Qle; cbn; lia).
      change (/ 42)%Q with (1 # 42)%Q. lra.
    + rewrite (@sceneAlpha_plateau e (conj A B)). lra.
    + rewrite (@sceneAlpha_ramp_down e ltac:(lia)). unfold Qdiv.
      assert (0 <= inject_Z (420 - e))%Q
        by (change 0%Q with (inject_Z 0); rewrite <- Zle_Qle; lia).
      assert (inject_Z (420 - e) <= 42)%Q
        by (change 42%Q with (inject_Z 42); rewrite <- Zle_Qle; lia).
      change (/ 42)%Q with (1 # 42)%Q. lra.
  - split.
    + intros Z0. destruct (Z_lt_le_dec e 42) as [A|A];
        [|destruct (Z_le_gt_dec e 378) as [B|B]].
      * rewrite (@sceneAlpha_ramp_up e A) in Z0. unfold Qeq, Qdiv in Z0. cbn in Z0. lia.
      * rewrite (@sceneAlpha_plateau e (conj A B)) in Z0. discriminate.
      * rewrite (@sceneAlpha_ramp_down e ltac:(lia)) in Z0.
        assert (0 < inject_Z (420 - e))%Q
          by (change 0%Q with (inject_Z 0); rewrite <- Zlt_Qlt; lia).
        unfold Qdiv in Z0. change (/ 42)%Q with (1 # 42)%Q in Z0. lra.
    + intros ->. rewrite sceneAlpha_ramp_up by lia. reflexivity.
  - apply (all_below_spec 420 alpha_in_range); [exact alpha_in_range_all|lia].
Qed.

Lemma scene_alpha_in_unit_interval_witness :
  (0 <= 400 < 420)%Z /\ (0 <= sceneAlpha (num := Q) 400 <= 1)%Q.
Proof.
  split; [lia|]. apply (@scene_alpha_in_unit_interval 400). lia.
Defined.

(** ** The pools, in exact arithmetic *)

Section ExactTests.
Local Open Scope Q_scope.

(** The two comparisons, on rationals. *)
Lemma ltb_exact_false (a b : Q) : (a <? b)%js = false <-> b <= a.
Proof. cbn. rewrite negb_false_iff. apply Qle_bool_iff. Qed.

Lemma ltb_exact_true (a b : Q) : (a <? b)%js = true <-> a < b.
Proof.
  cbn. rewrite negb_true_iff. split.
  - intros E. apply Qnot_le_lt. intros L. apply Qle_bool_iff in L. congruence.
  - intros L. destruct (Qle_bool b a) eqn:E; [|reflexivity].
    apply Qle_bool_iff in E. exfalso. apply (Qlt_irrefl a). eapply Qlt_le_trans; eauto.
Qed.

Lemma leb_exact_false (a b : Q) : (a <=? b)%js = false <-> b < a.
Proof.
  cbn. split.
  - intros E. apply Qnot_le_lt. intros L. apply Qle_bool_iff in L. congruence.
  - intros L. destruct (Qle_bool a b) eqn:E; [|reflexivity].
    apply Qle_bool_iff in E. exfalso. apply (Qlt_irrefl b). eapply Qlt_le_trans; eauto.
Qed.

(** The literals of the pools, on rationals. *)
Lemma lit_exact (m : Z) (k : nat) :
  @lit Q exact (Literal m k) == inject_Z m / inject_Z (10 ^ Z.of_nat k).
Proof.
  destruct k; [|reflexivity]. cbn [lit of_Z exact]. change (10 ^ Z.of_nat 0)%Z with 1%Z.
  unfold Qdiv. change (/ inject_Z 1) with 1. ring.
Qed.

End ExactTests.

(** X19: in exact arithmetic, with draws in [0, 1) and a surface of height
    0 or more, a particle whose age is not negative comes out of [update]
    with an age between 0 and its [maxLife] and not above the line
    [y = -10]: it is never painted older than it may get, or out of the
    top. *)
Theorem particle_age_within_lifetime
  (W H : Z) (p : Particle.t Q) (g : Rng Q) :
  unit_draws g -> (0 <= H)%Z -> (0 <= Particle.life p)%Q ->
  let p' := fst (Particle.update W H p g) in
  (0 <= Particle.life p' <= Particle.maxLife p')%Q
  /\ (- (10) <= Particle.y p')%Q.
Proof.
  intros U HH L. cbv zeta. rewrite update_cases.
  destruct (Particle.life (Particle.move p) >? Particle.maxLife (Particle.move p))%js
    eqn:A; [|destruct (Particle.y (Particle.move p) <? - $10)%js eqn:B];
    cbn [orb].
  1,2: cbn -[Qmult Qplus Qminus Qopp Qdiv inject_Z Qle];
       pose proof (U (S (drawn g))) as R1;
       pose proof (U (S (S (S (S (S (S (S (drawn g))))))))) as R7;
       assert (PH : (0 <= inject_Z H)%Q)
         by (change 0%Q with (inject_Z 0); rewrite <- Zle_Qle; exact HH);
       change (inject_Z 200) with 200%Q; change (inject_Z 300) with 300%Q;
       change (inject_Z 0) with 0%Q;
       repeat split; try lra; nra.
  apply ltb_exact_false in A. apply ltb_exact_false in B.
  cbn [fst]. cbn [Particle.move Particle.life Particle.maxLife Particle.y] in *.
  cbn [add exact lit of_Z opp] in *. change (inject_Z 1) with 1%Q in *.
  change (inject_Z 10) with 10%Q in *. repeat split; lra.
Qed.

Lemma particle_age_within_lifetime_witness :
  let p' := fst (Particle.update 800 600 Sample.worn Sample.halves) in
  (0 <= Particle.life p' <= Particle.maxLife p')%Q
  /\ (- (10) <= Particle.y p')%Q.
Proof.
  apply (@particle_age_within_lifetime 800 600 Sample.worn Sample.halves).
  - intros i. cbn. split; [discriminate|reflexivity].
  - lia.
  - vm_compute. discriminate.
Defined.

Section Fade.
Local Open Scope Q_scope.

(** [Math.min(a, 1)] of a number that is not negative. *)
Lemma min1_range (a : Q) : 0 <= a -> 0 <= Particle.min1 a <= 1 /\ Particle.min1 a <= a.
Proof.
  intros A. unfold Particle.min1.
  destruct ($1 <? a)%js eqn:E.
  - apply ltb_exact_true in E. cbn [lit of_Z exact] in *.
    change (inject_Z 1) with 1 in *. lra.
  - apply ltb_exact_false in E. cbn [lit of_Z exact] in *.
    change (inject_Z 1) with 1 in *. lra.
Qed.

Lemma min1_zero (a : Q) : a == 0 -> Particle.min1 a == 0.
Proof.
  intros A. unfold Particle.min1.
  destruct ($1 <? a)%js eqn:E; [|exact A].
  apply ltb_exact_true in E. cbn [lit of_Z exact] in E.
  change (inject_Z 1) with 1 in E. lra.
Qed.

End Fade.

(** X20: in exact arithmetic, a particle whose age is between 0 and its
    [maxLife] is painted as one disc at its position, with an opacity
    between 0 and its own [alpha]; the opacity is 0 at age 0 and at age
    [maxLife]. *)
Theorem particle_fade_bounded (p : Particle.t Q) :
  (0 <= Particle.life p <= Particle.maxLife p)%Q ->
  (0 <= Particle.alpha p)%Q ->
  exists a : Q,
    Particle.draw p
    = [save; globalAlpha a;
       disc (Particle.x p) (Particle.y p) (Particle.size p); restore]
    /\ (0 <= a <= Particle.alpha p)%Q
    /\ (Particle.life p == 0 \/ Particle.life p == Particle.maxLife p -> a == 0)%Q.
Proof.
  intros [L0 L1] A. eexists. split; [reflexivity|].
  cbn [mul sub div lit of_Z exact].
  change (inject_Z 40) with 40%Q.
  set (u := (Particle.life p / 40)%Q).
  set (v := ((Particle.maxLife p - Particle.life p) / 40)%Q).
  assert (U : (0 <= u)%Q) by (unfold u; apply Qle_shift_div_l; lra).
  assert (V : (0 <= v)%Q) by (unfold v; apply Qle_shift_div_l; lra).
  destruct (min1_range U) as [[U0 U1] _].
  destruct (min1_range V) as [[V0 V1] _].
  assert (F0 : (0 <= Particle.min1 u * Particle.min1 v)%Q) by nra.
  assert (F1 : (Particle.min1 u * Particle.min1 v <= 1)%Q) by nra.
  split; [split; nra|].
  intros [Z|Z].
  - assert (E : (Particle.min1 u == 0)%Q).
    { apply min1_zero. unfold u. rewrite Z. reflexivity. }
    rewrite E. ring.
  - assert (E : (Particle.min1 v == 0)%Q).
    { apply min1_zero. unfold v. rewrite Z. field. }
    rewrite E. ring.
Qed.

(** A particle as [reset()] leaves it, every draw being one half. *)
Lemma particle_fade_bounded_witness :
  exists a : Q,
    Particle.draw (fst (Particle.reset 800 600 Sample.halves))
    = [save; globalAlpha a;
       disc (Particle.x (fst (Particle.reset 800 600 Sample.halves)))
            (Particle.y (fst (Particle.reset 800 600 Sample.halves)))
            (Particle.size (fst (Particle.reset 800 600 Sample.halves)));
       restore]
    /\ (0 <= a <= Particle.alpha (fst (Particle.reset 800 600 Sample.halves)))%Q
    /\ (Particle.life (fst (Particle.reset 800 600 Sample.halves)) == 0
        \/ Particle.life (fst (Particle.reset 800 600 Sample.halves))
           == Particle.maxLife (fst (Particle.reset 800 600 Sample.halves))
        -> a == 0)%Q.
Proof.
  apply (@particle_fade_bounded (fst (Particle.reset 800 600 Sample.halves))).
  - split; vm_compute; discriminate.
  - vm_compute; discriminate.
Defined.

(** ** Streaks, in exact arithmetic *)

Section StreakLife.
Local Open Scope Q_scope.
Import GoldLine.

(** [reset()] draws six numbers, [update()] none or six. *)
Lemma streak_reset_drawn (W H : Z) (g : Rng Q) :
  drawn (snd (reset W H g)) = (drawn g + 6)%nat.
Proof. cbn. lia. Qed.

Lemma streak_update_drawn (W H : Z) (s : t Q) (g : Rng Q) :
  (drawn g <= drawn (snd (update W H s g)))%nat.
Proof.
  rewrite streak_update_cases.
  destruct (progress (advance s) >=? $1)%js.
  - rewrite streak_reset_drawn. lia.
  - cbn. lia.
Qed.

Lemma streak_updates_cons (W H : Z) (dims : list (Z * Z)) (s : t Q) (g : Rng Q) :
  updates ((W, H) :: dims) s g
  = updates dims (fst (update W H s g)) (snd (update W H s g)).
Proof. cbn [updates]. apply bind_eq. Qed.

Lemma streak_updates_drawn (dims : list (Z * Z)) (s : t Q) (g : Rng Q) :
  (drawn g <= drawn (snd (updates dims s g)))%nat.
Proof.
  revert s g. induction dims as [|[W H] dims IH]; intros s g; [cbn; lia|].
  rewrite streak_updates_cons.
  etransitivity; [apply (streak_update_drawn W H s g)|apply IH].
Qed.

(** What [reset()] and [create] leave in the fields that drive a streak. *)
Lemma streak_reset_fields (W H : Z) (g : Rng Q) :
  unit_draws g ->
  progress (fst (reset W H g)) == 0
  /\ (2 # 1000) <= speed (fst (reset W H g)) < (5 # 1000).
Proof.
  intros U. pose proof (U (S (S (drawn g)))) as R3.
  cbn -[Qmult Qplus Qminus Qopp Qdiv inject_Z Qle Qlt Qeq].
  change (inject_Z 0) with 0. split; [reflexivity|].
  change (inject_Z 2 / inject_Z 1000) with (2 # 1000).
  change (inject_Z 3 / inject_Z 1000) with (3 # 1000).
  lra.
Qed.

(** As long as no number is drawn, the calls of [update()] have only added
    the speed to the progress, which is still under 1 after the last one. *)
Lemma streak_updates_quiet (dims : list (Z * Z)) (s : t Q) (g : Rng Q) :
  drawn (snd (updates dims s g)) = drawn g ->
  speed (fst (updates dims s g)) = speed s
  /\ progress (fst (updates dims s g))
     == progress s + inject_Z (Z.of_nat (List.length dims)) * speed s
  /\ (dims <> [] -> progress (fst (updates dims s g)) < 1).
Proof.
  revert s g. induction dims as [|[W H] dims IH]; intros s g E.
  - cbn. repeat split; [ring|congruence].
  - rewrite streak_updates_cons in *.
    pose proof (streak_updates_drawn dims (fst (update W H s g))
                  (snd (update W H s g))) as M.
    pose proof (streak_update_drawn W H s g) as M'.
    assert (E1 : drawn (snd (update W H s g)) = drawn g) by lia.
    assert (E2 : drawn (snd (updates dims (fst (update W H s g))
                               (snd (update W H s g))))
                 = drawn (snd (update W H s g))) by lia.
    destruct (IH _ _ E2) as (S1 & P1 & Q1).
    revert E1 S1 P1 Q1. rewrite streak_update_cases.
    destruct (progress (advance s) >=? $1)%js eqn:T.
    + rewrite streak_reset_drawn. lia.
    + intros _ S1 P1 Q1. cbn [fst snd ret] in *.
      apply leb_exact_false in T. cbn [lit of_Z exact] in T.
      change (inject_Z 1) with 1 in T.
      assert (SP : speed (cap (advance s)) = speed s).
      { unfold cap. destruct (_ <? _)%nat; reflexivity. }
      assert (PP : progress (cap (advance s)) = progress s + speed s).
      { rewrite cap_progress. reflexivity. }
      change (progress (advance s)) with (progress s + speed s) in T.
      rewrite SP in *. rewrite PP in *.
      split; [exact S1|]. split.
      * rewrite P1. cbn [List.length]. rewrite Nat2Z.inj_succ, <- Z.add_1_r.
        rewrite inject_Z_plus. change (inject_Z 1) with 1. ring.
      * intros _. destruct dims as [|d dims'].
        -- cbn [updates ret fst]. rewrite PP. exact T.
        -- apply Q1. discriminate.
Qed.

(** A streak the engine can hold has its progress in [0, 1) and its speed
    in [0.002, 0.005). *)
Lemma streak_live_fields (s : t Q) :
  streak_live s -> 0 <= progress s < 1 /\ (2 # 1000) <= speed s < (5 # 1000).
Proof.
  induction 1 as [W H g U|W H g s U L [P V]].
  - pose proof (U (drawn g + 6)%nat) as R7.
    destruct (streak_reset_fields W H U) as [_ V].
    split; [|exact V].
    replace (drawn g + 6)%nat with (S (S (S (S (S (S (drawn g))))))) in R7 by lia.
    exact R7.
  - rewrite streak_update_cases.
    destruct (progress (advance s) >=? $1)%js eqn:T.
    + destruct (streak_reset_fields W H U) as [P0 V0].
      split; [rewrite P0; lra|exact V0].
    + cbn [fst ret]. apply leb_exact_false in T. cbn [lit of_Z exact] in T.
      change (inject_Z 1) with 1 in T.
      assert (SP : speed (cap (advance s)) = speed s).
      { unfold cap. destruct (_ <? _)%nat; reflexivity. }
      rewrite SP. split; [|exact V].
      rewrite cap_progress.
      change (progress (advance s)) with (progress s + speed s) in *. lra.
Qed.

End StreakLife.

(** X21: in exact arithmetic, with draws in [0, 1), every streak the engine
    can hold (created for the pool, then updated any number of times) has
    its progress in [0, 1) and its speed in [0.002, 0.005). *)
Theorem streak_progress_in_unit (s : GoldLine.t Q) :
  streak_live s ->
  (0 <= GoldLine.progress s < 1)%Q
  /\ ((2 # 1000) <= GoldLine.speed s < (5 # 1000))%Q.
Proof. apply streak_live_fields. Qed.

Lemma streak_progress_in_unit_witness :
  (0 <= GoldLine.progress
          (fst (GoldLine.update 800 600
                  (fst (GoldLine.create 800 600 Sample.halves)) Sample.halves)) < 1)%Q
  /\ ((2 # 1000)
      <= GoldLine.speed
           (fst (GoldLine.update 800 600
                   (fst (GoldLine.create 800 600 Sample.halves)) Sample.halves))
      < (5 # 1000))%Q.
Proof.
  apply (@streak_progress_in_unit
           (fst (GoldLine.update 800 600
                   (fst (GoldLine.create 800 600 Sample.halves)) Sample.halves))).
  apply live_updated.
  - intros i. cbn. split; [discriminate|reflexivity].
  - apply live_created. intros i. cbn. split; [discriminate|reflexivity].
Defined.

(** X22: in exact arithmetic, with draws in [0, 1), a streak the engine can
    hold is reinitialised within 500 calls of [update()], whatever the
    sizes of the surface at these calls: numbers are drawn, which only
    [reset()] does. *)
Theorem streak_resets_within_500
  (dims : list (Z * Z)) (s : GoldLine.t Q) (g : Rng Q) :
  streak_live s -> List.length dims = 500%nat ->
  (drawn g < drawn (snd (GoldLine.updates dims s g)))%nat.
Proof.
  intros L D.
  destruct (streak_live_fields L) as [P V].
  pose proof (streak_updates_drawn dims s g) as M.
  destruct (Nat.eq_dec (drawn (snd (GoldLine.updates dims s g))) (drawn g)) as [E|NE];
    [|lia].
  exfalso. destruct (streak_updates_quiet dims s g E) as (_ & P1 & Q1).
  assert (NN : dims <> []) by (intros ->; discriminate).
  specialize (Q1 NN). rewrite P1, D in Q1.
  change (inject_Z (Z.of_nat 500)) with (500 # 1)%Q in Q1. lra.
Qed.

Lemma streak_resets_within_500_witness :
  (drawn Sample.halves
   < drawn (snd (GoldLine.updates (repeat (800, 600)%Z 500)
                   (fst (GoldLine.create 800 600 Sample.halves)) Sample.halves)))%nat.
Proof.
  apply (@streak_resets_within_500 (repeat (800, 600)%Z 500)
           (fst (GoldLine.create 800 600 Sample.halves)) Sample.halves).
  - apply live_created. intros i. cbn. split; [discriminate|reflexivity].
  - apply repeat_length.
Defined.

(** ** What a streak paints *)

Section StreakDraw.
Context {num : Type} {N : JSNumber num}.
Import GoldLine.

Lemma segments_cons (a : num) (len i : nat) (p q : num * num) (l : list (num * num)) :
  filter is_line (segments a len i (p :: q :: l))
  = line (fst p) (snd p) (fst q) (snd q)
      :: filter is_line (segments a len (S i) (q :: l)).
Proof. reflexivity. Qed.

(** One line per pair of neighbours of the trail. *)
Lemma segments_lines (a : num) (len i : nat) (l : list (num * num)) :
  List.length (filter is_line (segments a len i l)) = (List.length l - 1)%nat.
Proof.
  revert i. induction l as [|p l IH]; intros i; [reflexivity|].
  destruct l as [|q l]; [reflexivity|].
  rewrite segments_cons. cbn [List.length]. rewrite IH. cbn [List.length]. lia.
Qed.

End StreakDraw.

(** X23: a streak whose trail has fewer than two points paints nothing; one
    whose trail has two points or more paints, between [save] and
    [restore], one line less than its trail has points, and then one disc
    at the last point of the trail. *)
Theorem streak_paints_its_trail
  {num : Type} {N : JSNumber num} (s : GoldLine.t num) :
  ((List.length (GoldLine.trail s) < 2)%nat -> GoldLine.draw s = [])
  /\ ((2 <= List.length (GoldLine.trail s))%nat ->
      List.length (filter is_line (GoldLine.draw s))
      = (List.length (GoldLine.trail s) - 1)%nat
      /\ exists l p before,
           GoldLine.draw s
           = save :: l ++ [disc (fst p) (snd p) ($4)%js; restore]
           /\ GoldLine.trail s = before ++ [p]).
Proof.
  unfold GoldLine.draw. split; intros L.
  - apply Nat.ltb_lt in L. rewrite L. reflexivity.
  - assert (L' : (List.length (GoldLine.trail s) <? 2)%nat = false)
      by (apply Nat.ltb_ge; exact L).
    rewrite L'. split.
    + cbn [app filter is_line]. rewrite filter_app. cbn [filter is_line].
      rewrite length_app, segments_lines. cbn [List.length]. lia.
    + destruct (GoldLine.trail s) as [|p0 l0] eqn:T; [cbn in L; lia|].
      assert (NE : p0 :: l0 <> []) by discriminate.
      destruct (exists_last NE) as (l1 & p & E).
      exists (GoldLine.segments (GoldLine.alpha s) (List.length (p0 :: l0)) 1 (p0 :: l0)
              ++ [globalAlpha (GoldLine.alpha s)]), p, l1.
      split; [|exact E].
      rewrite E at 3 4. rewrite !last_last.
      cbn [app]. rewrite <- !app_assoc. reflexivity.
Qed.

(** ** Shapes, in exact arithmetic *)

Section ShapeLife.
Context {M : JSMath Q}.
Local Open Scope Q_scope.
Import GeomShape.

Lemma shape_update_cases (W H : Z) (s : t Q) (g : Rng Q) :
  update W H s g
  = if ((x (move s) <? - $200) || (x (move s) >? of_Z W + $200)
        || (y (move s) <? - $200) || (y (move s) >? of_Z H + $200))%js
    then reset W H g else (move s, g).
Proof.
  unfold update.
  destruct ((x (move s) <? - $200) || (x (move s) >? of_Z W + $200)
            || (y (move s) <? - $200) || (y (move s) >? of_Z H + $200))%js;
    reflexivity.
Qed.

(** The index [Math.floor(Math.random() * 3)] is 0, 1 or 2. *)
Lemma floor_of_three (r : Q) :
  0 <= r < 1 -> (0 <= Qfloor (r * 3) < 3)%Z.
Proof.
  intros [R0 R1]. split.
  - change 0%Z with (Qfloor 0). apply Qfloor_resp_le. nra.
  - rewrite Zlt_Qlt. eapply Qle_lt_trans; [apply Qfloor_le|].
    change (inject_Z 3) with 3. lra.
Qed.

Lemma shape_reset_sides (W H : Z) (g : Rng Q) :
  unit_draws g ->
  exists n : Z, sides (fst (reset W H g)) = Some n /\ (n = 3 \/ n = 4 \/ n = 6)%Z.
Proof.
  intros U. pose proof (U (6 + drawn g)%nat) as R7.
  apply floor_of_three in R7.
  cbn -[Qmult Qplus Qminus Qopp Qdiv inject_Z Qfloor index].
  change (inject_Z 3) with 3.
  assert (C : (Qfloor (stream g (6 + drawn g)%nat * 3) = 0
               \/ Qfloor (stream g (6 + drawn g)%nat * 3) = 1
               \/ Qfloor (stream g (6 + drawn g)%nat * 3) = 2)%Z) by lia.
  change (6 + drawn g)%nat with (S (S (S (S (S (S (drawn g))))))) in C.
  destruct C as [-> | [-> | ->]];
    [exists 3%Z | exists 4%Z | exists 6%Z]; (split; [reflexivity | lia]).
Qed.

End ShapeLife.

(** X24: in exact arithmetic, with draws in [0, 1) and a surface whose
    sides are 0 or more, a shape comes out of [update()] within the
    surface padded by 200 on each side. *)
Theorem shape_stays_near_surface
  {M : JSMath Q} (W H : Z) (s : GeomShape.t Q) (g : Rng Q) :
  unit_draws g -> (0 <= W)%Z -> (0 <= H)%Z ->
  let s' := fst (GeomShape.update W H s g) in
  (- (200) <= GeomShape.x s' <= inject_Z W + 200)%Q
  /\ (- (200) <= GeomShape.y s' <= inject_Z H + 200)%Q.
Proof.
  intros U HW HH. cbv zeta. rewrite shape_update_cases.
  assert (PW : (0 <= inject_Z W)%Q)
    by (change 0%Q with (inject_Z 0); rewrite <- Zle_Qle; exact HW).
  assert (PH : (0 <= inject_Z H)%Q)
    by (change 0%Q with (inject_Z 0); rewrite <- Zle_Qle; exact HH).
  destruct (GeomShape.x (GeomShape.move s) <? - $200)%js eqn:A;
    [|destruct (GeomShape.x (GeomShape.move s) >? of_Z W + $200)%js eqn:B;
      [|destruct (GeomShape.y (GeomShape.move s) <? - $200)%js eqn:C;
        [|destruct (GeomShape.y (GeomShape.move s) >? of_Z H + $200)%js eqn:D]]];
    cbn [orb].
  1-4: pose proof (U (drawn g)) as R1; pose proof (U (S (drawn g))) as R2;
       cbn -[Qmult Qplus Qminus Qopp Qdiv inject_Z Qle];
       repeat split; nra.
  apply ltb_exact_false in A, B, C, D. cbn [fst].
  cbn [lit of_Z exact opp add] in A, B, C, D.
  change (inject_Z 200) with 200%Q in *.
  repeat split; assumption.
Qed.

Lemma shape_stays_near_surface_witness :
  let s' := fst (@GeomShape.update Q exact Sample.mathQ 800 600
                   (fst (@GeomShape.reset Q exact Sample.mathQ 800 600 Sample.halves))
                   Sample.halves) in
  (- (200) <= GeomShape.x s' <= inject_Z 800 + 200)%Q
  /\ (- (200) <= GeomShape.y s' <= inject_Z 600 + 200)%Q.
Proof.
  apply (@shape_stays_near_surface Sample.mathQ 800 600
           (fst (@GeomShape.reset Q exact Sample.mathQ 800 600 Sample.halves))
           Sample.halves).
  - intros i. cbn. split; [discriminate|reflexivity].
  - lia.
  - lia.
Defined.

(** X25: in exact arithmetic, with draws in [0, 1), [reset()] gives a shape
    3, 4 or 6 sides, never an undefined count, and the shape is painted as
    one polygon with that many vertices. *)
Theorem shape_has_3_4_or_6_sides
  {M : JSMath Q} (W H : Z) (g : Rng Q) :
  unit_draws g ->
  exists (n : Z) (vs : list (Q * Q)),
    GeomShape.sides (fst (GeomShape.reset W H g)) = Some n
    /\ (n = 3 \/ n = 4 \/ n = 6)%Z
    /\ filter (fun c => match c with polygon _ => true | _ => false end)
         (GeomShape.draw (fst (GeomShape.reset W H g)))
       = [polygon vs]
    /\ Z.of_nat (List.length vs) = n.
Proof.
  intros U. destruct (shape_reset_sides W H U) as (n & E & C).
  exists n. unfold GeomShape.draw. rewrite E. eexists.
  split; [reflexivity|]. split; [exact C|]. split; [reflexivity|].
  rewrite length_map. unfold upto. rewrite length_map, length_seq. lia.
Qed.

Lemma shape_has_3_4_or_6_sides_witness :
  exists (n : Z) (vs : list (Q * Q)),
    GeomShape.sides (fst (@GeomShape.reset Q exact Sample.mathQ 800 600 Sample.halves))
    = Some n
    /\ (n = 3 \/ n = 4 \/ n = 6)%Z
    /\ filter (fun c => match c with polygon _ => true | _ => false end)
         (@GeomShape.draw Q exact Sample.mathQ
            (fst (@GeomShape.reset Q exact Sample.mathQ 800 600 Sample.halves)))
       = [polygon vs]
    /\ Z.of_nat (List.length vs) = n.
Proof.
  apply (@shape_has_3_4_or_6_sides Sample.mathQ 800 600 Sample.halves).
  intros i. cbn. split; [discriminate|reflexivity].
Defined.
